(** * Event ingestion, normalization and aggregation: a shallow embedding

    Sources embedded here:
    - [backend/services/normalizer.js]     (class [Normalizer])
    - [backend/services/eventProcessor.js] (class [EventProcessor])
    - [backend/models/Event.js]            (the two mongoose schemas)
    - [backend/routes/aggregates.js]       (the two aggregation pipelines)

    Conventions.
    - A request body is a JSON value ([JValue]); an object is the list of its
      own properties in enumeration order.
    - A JS number is an exact rational ([Q]); binary64 rounding is not
      modelled, and neither are [NaN] and the infinities, which no JSON text
      of ordinary size denotes.
    - Strings are byte strings, read as UTF-8.
    - [new Date(string)] is implementation-defined outside the ISO format, so
      the host's parser is a section variable [Date_parse].
    - MongoDB is a pair of lists in natural (insertion) order; a transaction
      is a working copy that is either returned (commit) or dropped (abort). *)

From Stdlib Require Import List String Ascii Bool Arith ZArith QArith Lia.
From Stdlib Require Import Permutation Sorted DecimalString.
Import ListNotations.

Local Open Scope string_scope.
Local Open Scope list_scope.
Local Open Scope Z_scope.

(** ** SHA-256 (FIPS 180-4), as used by [crypto.createHash('sha256')] *)

Module SHA256.

Definition w32 (x : Z) : Z := x mod 2 ^ 32.
Definition add32 (x y : Z) : Z := w32 (x + y).
Definition rotr (n x : Z) : Z :=
  Z.lor (Z.shiftr x n) (w32 (Z.shiftl x (32 - n))).
Definition shr (n x : Z) : Z := Z.shiftr x n.
Definition not32 (x : Z) : Z := Z.lxor x (2 ^ 32 - 1).

Definition Ch (x y z : Z) : Z := Z.lxor (Z.land x y) (Z.land (not32 x) z).
Definition Maj (x y z : Z) : Z :=
  Z.lxor (Z.lxor (Z.land x y) (Z.land x z)) (Z.land y z).
Definition bigSigma0 (x : Z) : Z :=
  Z.lxor (Z.lxor (rotr 2 x) (rotr 13 x)) (rotr 22 x).
Definition bigSigma1 (x : Z) : Z :=
  Z.lxor (Z.lxor (rotr 6 x) (rotr 11 x)) (rotr 25 x).
Definition smallSigma0 (x : Z) : Z :=
  Z.lxor (Z.lxor (rotr 7 x) (rotr 18 x)) (shr 3 x).
Definition smallSigma1 (x : Z) : Z :=
  Z.lxor (Z.lxor (rotr 17 x) (rotr 19 x)) (shr 10 x).

(** The round constants are the first 32 bits of the fractional parts of
    the cube roots of the first 64 primes, and the initial hash value those
    of the square roots of the first 8 primes. *)
Definition primes : list Z :=
  [ 2; 3; 5; 7; 11; 13; 17; 19; 23; 29; 31; 37; 41; 43; 47; 53;
    59; 61; 67; 71; 73; 79; 83; 89; 97; 101; 103; 107; 109; 113; 127; 131;
    137; 139; 149; 151; 157; 163; 167; 173; 179; 181; 191; 193; 197; 199;
    211; 223; 227; 229; 233; 239; 241; 251; 257; 263; 269; 271; 277; 281;
    283; 293; 307; 311 ].

(** The integer cube root, one bit at a time from bit [n - 1] down. *)
Fixpoint cube_root (n : nat) (x acc : Z) : Z :=
  match n with
  | O => acc
  | S n' =>
      let candidate := acc + 2 ^ Z.of_nat n' in
      if candidate ^ 3 <=? x then cube_root n' x candidate
      else cube_root n' x acc
  end.

Definition K : list Z :=
  Eval vm_compute in
    map (fun p => w32 (cube_root 36 (p * 2 ^ 96) 0)) primes.

Definition H0 : list Z :=
  Eval vm_compute in
    map (fun p => w32 (Z.sqrt (p * 2 ^ 64))) (firstn 8 primes).

(** The message as bytes, then padded to a multiple of 64 bytes. *)
Fixpoint bytes_of_string (s : string) : list Z :=
  match s with
  | EmptyString => []
  | String c r => Z.of_nat (nat_of_ascii c) :: bytes_of_string r
  end.

Definition be_bytes (n : nat) (x : Z) : list Z :=
  map (fun i => (Z.shiftr x (8 * Z.of_nat i)) mod 256) (rev (seq 0 n)).

Definition pad (msg : list Z) : list Z :=
  let len := Z.of_nat (List.length msg) in
  let zeros := Z.to_nat ((55 - len) mod 64) in
  msg ++ [0x80] ++ repeat 0 zeros ++ be_bytes 8 (8 * len).

Fixpoint words_of_bytes (bs : list Z) : list Z :=
  match bs with
  | a :: b :: c :: d :: r =>
      (((a * 256 + b) * 256 + c) * 256 + d) :: words_of_bytes r
  | _ => []
  end.

Fixpoint chunks (fuel : nat) (ws : list Z) : list (list Z) :=
  match fuel, ws with
  | S f, _ :: _ => firstn 16 ws :: chunks f (skipn 16 ws)
  | _, _ => []
  end.

(** Message schedule: [sched] holds W_{t-1}, W_{t-2}, ... newest first. *)
Fixpoint extend (n : nat) (sched : list Z) : list Z :=
  match n with
  | O => sched
  | S n' =>
      let wt :=
        add32 (add32 (smallSigma1 (nth 1 sched 0)) (nth 6 sched 0))
              (add32 (smallSigma0 (nth 14 sched 0)) (nth 15 sched 0)) in
      extend n' (wt :: sched)
  end.

Definition schedule (block : list Z) : list Z :=
  rev (extend 48 (rev block)).

Record regs : Type := Regs
  { ra : Z; rb : Z; rc : Z; rd : Z; re : Z; rf : Z; rg : Z; rh : Z }.

Definition round (r : regs) (kw : Z * Z) : regs :=
  let t1 :=
    add32 (add32 (add32 (rh r) (bigSigma1 (re r)))
                 (add32 (Ch (re r) (rf r) (rg r)) (fst kw))) (snd kw) in
  let t2 := add32 (bigSigma0 (ra r)) (Maj (ra r) (rb r) (rc r)) in
  Regs (add32 t1 t2) (ra r) (rb r) (rc r) (add32 (rd r) t1)
       (re r) (rf r) (rg r).

Definition regs_of (h : list Z) : regs :=
  Regs (nth 0 h 0) (nth 1 h 0) (nth 2 h 0) (nth 3 h 0)
       (nth 4 h 0) (nth 5 h 0) (nth 6 h 0) (nth 7 h 0).

Definition list_of (r : regs) : list Z :=
  [ra r; rb r; rc r; rd r; re r; rf r; rg r; rh r].

Definition compress (h : list Z) (block : list Z) : list Z :=
  let r := fold_left round (combine K (schedule block)) (regs_of h) in
  map (fun p => add32 (fst p) (snd p)) (combine h (list_of r)).

Definition hexdigit (n : Z) : ascii :=
  if n <? 10 then ascii_of_nat (Z.to_nat (48 + n))
  else ascii_of_nat (Z.to_nat (87 + n)).

Fixpoint hex_of_bytes (bs : list Z) : string :=
  match bs with
  | [] => EmptyString
  | b :: r => String (hexdigit (b / 16)) (String (hexdigit (b mod 16))
                                                 (hex_of_bytes r))
  end.

(** [createHash('sha256').update(s).digest('hex')] *)
Definition digest_hex (s : string) : string :=
  let ws := words_of_bytes (pad (bytes_of_string s)) in
  let h := fold_left compress (chunks (List.length ws) ws) H0 in
  hex_of_bytes (flat_map (be_bytes 4) h).

Arguments digest_hex : simpl never.

End SHA256.

(** ** JSON values and the JavaScript built-ins the services rely on *)

Module JS.

#[local] Set Warnings "-register-all".
Inductive JValue : Type :=
| JNull
| JBool (b : bool)
| JNum (n : Q)
| JStr (s : string)
| JArr (xs : list JValue)
| JObj (props : list (string * JValue)).

(** A thrown exception carries its [message]. *)
Inductive Completion (A : Type) : Type :=
| Normal (a : A)
| Throw (message : string).
Arguments Normal {A} a.
Arguments Throw {A} message.

Definition bind {A B} (c : Completion A) (k : A -> Completion B)
  : Completion B :=
  match c with
  | Normal a => k a
  | Throw m => Throw m
  end.

(** The double quote, written by its code. *)
Definition dq : string := String "034"%char EmptyString.
Definition backslash : string := String "092"%char EmptyString.

Definition concat_with (sep : string) (parts : list string) : string :=
  String.concat sep parts.

(** [ToBoolean] *)
Definition truthy (v : JValue) : bool :=
  match v with
  | JNull => false
  | JBool b => b
  | JNum n => negb (Qeq_bool n 0)
  | JStr s => negb (s =? "")%string
  | JArr _ | JObj _ => true
  end.

(** [typeof v === 'object'] *)
Definition typeof_object (v : JValue) : bool :=
  match v with
  | JNull | JArr _ | JObj _ => true
  | _ => false
  end.

Definition string_of_Z (z : Z) : string :=
  NilZero.string_of_int (Z.to_int z).

Definition string_of_nat (n : nat) : string := string_of_Z (Z.of_nat n).

(** *** [Number::toString] on an exact decimal

    [decimal_scale] finds the least [t] with [a * 10^t] divisible by [d];
    [strip_zeros] removes the trailing zeros of the digit string.  The
    number is then [s * 10^(n - k)] with [k] the number of digits of [s],
    and the four layouts of the language standard follow.  A rational with
    no finite expansion (which no JSON text denotes) is cut after
    [fuel] decimals. *)
Fixpoint decimal_scale (fuel : nat) (a d : Z) (t : Z) : Z * Z :=
  match fuel with
  | O => (a / d, t)
  | S f => if (a mod d =? 0) then (a / d, t)
           else decimal_scale f (a * 10) d (t + 1)
  end.

Fixpoint strip_zeros (fuel : nat) (m : Z) (z : Z) : Z * Z :=
  match fuel with
  | O => (m, z)
  | S f => if (m mod 10 =? 0) then strip_zeros f (m / 10) (z + 1)
           else (m, z)
  end.

Fixpoint zeros (n : nat) : string :=
  match n with
  | O => EmptyString
  | S n' => String "0"%char (zeros n')
  end.

Definition positiveToString (num den : Z) : string :=
  let '(m, t) := decimal_scale 400 num den 0 in
  let '(s, z) := strip_zeros 400 m 0 in
  let digits := string_of_Z s in
  let k := Z.of_nat (String.length digits) in
  let n := k + z - t in
  if (k <=? n) && (n <=? 21) then
    (digits ++ zeros (Z.to_nat (n - k)))%string
  else if (0 <? n) && (n <=? 21) then
    (substring 0 (Z.to_nat n) digits ++ "." ++
     substring (Z.to_nat n) (Z.to_nat (k - n)) digits)%string
  else if (-6 <? n) && (n <=? 0) then
    ("0." ++ zeros (Z.to_nat (- n)) ++ digits)%string
  else
    let e := n - 1 in
    let esign := if e <? 0 then "-" else "+" in
    let mant :=
      if k =? 1 then digits
      else (substring 0 1 digits ++ "." ++
            substring 1 (Z.to_nat (k - 1)) digits)%string in
    (mant ++ "e" ++ esign ++ string_of_Z (Z.abs e))%string.

Definition numberToString (q : Q) : string :=
  let num := Qnum q in
  let den := Z.pos (Qden q) in
  if num =? 0 then "0"
  else if num <? 0 then ("-" ++ positiveToString (- num) den)%string
  else positiveToString num den.

(** *** Own properties *)

Fixpoint assoc {A} (k : string) (l : list (string * A)) : option A :=
  match l with
  | [] => None
  | (k', v) :: r => if (k =? k')%string then Some v else assoc k r
  end.

Definition is_some {A} (o : option A) : bool :=
  match o with Some _ => true | None => false end.

Definition array_index (k : string) (len : nat) : option nat :=
  find (fun i => (string_of_nat i =? k)%string) (seq 0 len).

(** [Object.prototype.hasOwnProperty.call(v, k)] *)
Definition hasOwn (v : JValue) (k : string) : bool :=
  match v with
  | JObj props => is_some (assoc k props)
  | JArr xs => is_some (array_index k (List.length xs))
               || (k =? "length")%string
  | _ => false
  end.

(** [v[k]] for an own property [k] *)
Definition getOwn (v : JValue) (k : string) : JValue :=
  match v with
  | JObj props => match assoc k props with Some x => x | None => JNull end
  | JArr xs =>
      match array_index k (List.length xs) with
      | Some i => nth i xs JNull
      | None => JNum (inject_Z (Z.of_nat (List.length xs)))
      end
  | _ => JNull
  end.

(** [String(v)].  An object whose own [toString] is not callable (in a JSON
    value none is) has no primitive value: [TypeError]. *)
Fixpoint ToString (v : JValue) : Completion string :=
  match v with
  | JNull => Normal "null"
  | JBool true => Normal "true"
  | JBool false => Normal "false"
  | JNum n => Normal (numberToString n)
  | JStr s => Normal s
  | JArr xs =>
      (fix join (first : bool) (l : list JValue) : Completion string :=
         match l with
         | [] => Normal EmptyString
         | x :: r =>
             bind (match x with
                   | JNull => Normal EmptyString
                   | _ => ToString x
                   end) (fun sx =>
             bind (join false r) (fun sr =>
             Normal ((if first then "" else ",") ++ sx ++ sr)%string))
         end) true xs
  | JObj props =>
      if is_some (assoc "toString" props)
      then Throw "Cannot convert object to primitive value"
      else Normal "[object Object]"
  end.

(** The values [String] accepts: an object with an own [toString] field is
    refused, at the top or as an element of an array at any depth. *)
Fixpoint stringable (v : JValue) : bool :=
  match v with
  | JArr xs =>
      (fix all (l : list JValue) : bool :=
         match l with
         | [] => true
         | x :: r => stringable x && all r
         end) xs
  | JObj props => negb (is_some (assoc "toString" props))
  | _ => true
  end.

(** *** [JSON.stringify] *)

Definition hex4 (n : nat) : string :=
  let z := Z.of_nat n in
  String "0"%char (String "0"%char
    (String (SHA256.hexdigit (z / 16))
       (String (SHA256.hexdigit (z mod 16)) EmptyString))).

Definition escape_char (c : ascii) : string :=
  let n := nat_of_ascii c in
  if (n =? 34)%nat then (backslash ++ dq)%string
  else if (n =? 92)%nat then (backslash ++ backslash)%string
  else if (n =? 8)%nat then (backslash ++ "b")%string
  else if (n =? 12)%nat then (backslash ++ "f")%string
  else if (n =? 10)%nat then (backslash ++ "n")%string
  else if (n =? 13)%nat then (backslash ++ "r")%string
  else if (n =? 9)%nat then (backslash ++ "t")%string
  else if (n <? 32)%nat then (backslash ++ "u" ++ hex4 n)%string
  else String c EmptyString.

Fixpoint escape (s : string) : string :=
  match s with
  | EmptyString => EmptyString
  | String c r => (escape_char c ++ escape r)%string
  end.

Definition quote (s : string) : string := (dq ++ escape s ++ dq)%string.

Fixpoint stringify (v : JValue) : string :=
  match v with
  | JNull => "null"
  | JBool true => "true"
  | JBool false => "false"
  | JNum n => numberToString n
  | JStr s => quote s
  | JArr xs =>
      ("[" ++ concat_with ","
         ((fix each (l : list JValue) : list string :=
             match l with
             | [] => []
             | x :: r => stringify x :: each r
             end) xs) ++ "]")%string
  | JObj props =>
      ("{" ++ concat_with ","
         ((fix each (l : list (string * JValue)) : list string :=
             match l with
             | [] => []
             | (k, x) :: r => (quote k ++ ":" ++ stringify x)%string :: each r
             end) props) ++ "}")%string
  end.

End JS.

(** ** [backend/services/normalizer.js] *)

Module Normalizer.
Import JS.

(** The canonical record built by [normalize]; [None] is JS [null]. *)
Record Normalized : Type := mkNormalized
  { client_id : string;
    metric : option string;
    amount : option Q;
    timestamp : option Z;          (* a Date, as milliseconds since epoch *)
    normalizedHash : string }.

Inductive NormalizeResult : Type :=
| Canonical (n : Normalized)
| Invalid (error : string).        (* the object [{ error }] *)

(** The record before the hash is added. *)
Record Fields : Type := mkFields
  { f_client_id : string;
    f_metric : option string;
    f_amount : option Q;
    f_timestamp : option Z }.

(** [this.fieldMappings] of the exported instance ([new Normalizer()]). *)
Definition defaultMappings : list (string * string) :=
  [ ("metric", "metric");
    ("amount", "amount");
    ("timestamp", "timestamp");
    ("value", "metric");
    ("price", "amount");
    ("date", "timestamp");
    ("time", "timestamp") ].

Definition fieldMappings : list (string * list (string * string)) :=
  [ ("default", defaultMappings) ].

(** Names that [fieldMappings[source]] finds on [Object.prototype]: the
    value is truthy and has no enumerable own property. *)
Definition objectPrototypeKeys : list string :=
  [ "constructor"; "__defineGetter__"; "__defineSetter__";
    "hasOwnProperty"; "__lookupGetter__"; "__lookupSetter__";
    "isPrototypeOf"; "propertyIsEnumerable"; "toString"; "valueOf";
    "__proto__"; "toLocaleString" ].

(** [Object.entries(this.fieldMappings[source] || this.fieldMappings.default)] *)
Definition mappingEntries (source : string) : list (string * string) :=
  match assoc source fieldMappings with
  | Some table => table
  | None =>
      if existsb (fun k => (k =? source)%string) objectPrototypeKeys
      then []
      else defaultMappings
  end.

(** *** Type converters *)

Definition is_digit (c : ascii) : bool :=
  let n := nat_of_ascii c in ((48 <=? n) && (n <=? 57))%nat.

(** [value.replace(/[^0-9.-]/g, '')] *)
Fixpoint stripNonNumeric (s : string) : string :=
  match s with
  | EmptyString => EmptyString
  | String c r =>
      if is_digit c || Ascii.eqb c "." || Ascii.eqb c "-"
      then String c (stripNonNumeric r)
      else stripNonNumeric r
  end.

Fixpoint span_digits (s : string) : string * string :=
  match s with
  | String c r =>
      if is_digit c
      then let '(d, rest) := span_digits r in (String c d, rest)
      else (EmptyString, s)
  | EmptyString => (EmptyString, EmptyString)
  end.

Fixpoint digits_value (acc : Z) (s : string) : Z :=
  match s with
  | EmptyString => acc
  | String c r => digits_value (acc * 10 + Z.of_nat (nat_of_ascii c) - 48) r
  end.

(** [parseFloat] on strings over digits, dot and sign (what the replace
    above leaves): the longest prefix [sign? digits? (. digits?)?] with at
    least one digit; [None] is [NaN]. *)
Definition parseFloat (s : string) : option Q :=
  let '(neg, r) :=
    match s with
    | String "-" r => (true, r)
    | String "+" r => (false, r)
    | _ => (false, s)
    end in
  let '(ip, r1) := span_digits r in
  let fp := match r1 with
            | String "." r2 => fst (span_digits r2)
            | _ => EmptyString
            end in
  if ((ip =? "") && (fp =? ""))%string then None
  else
    let scale := 10 ^ Z.of_nat (String.length fp) in
    let mag := digits_value 0 ip * scale + digits_value 0 fp in
    Some (Qred (Qmake (if neg then - mag else mag) (Z.to_pos scale))).

Definition convert_amount (value : JValue) : option Q :=
  match value with
  | JNum n => Some n
  | JStr s => parseFloat (stripNonNumeric s)
  | _ => None
  end.

(** Exactly [n] leading digits. *)
Fixpoint take_digits (n : nat) (s : string) : option (string * string) :=
  match n, s with
  | O, _ => Some (EmptyString, s)
  | S n', String c r =>
      if is_digit c
      then match take_digits n' r with
           | Some (d, rest) => Some (String c d, rest)
           | None => None
           end
      else None
  | S _, EmptyString => None
  end.

Definition expect (sep : option ascii) (s : string) : option string :=
  match sep with
  | None => Some s
  | Some c =>
      match s with
      | String c' r => if Ascii.eqb c c' then Some r else None
      | EmptyString => None
      end
  end.

(** [value.match(/^(\d{4})SEP(\d{2})SEP(\d{2})/)] *)
Definition match_ymd (sep : option ascii) (value : string)
  : option (string * string * string) :=
  match take_digits 4 value with
  | None => None
  | Some (year, r1) =>
      match expect sep r1 with
      | None => None
      | Some r2 =>
          match take_digits 2 r2 with
          | None => None
          | Some (month, r3) =>
              match expect sep r3 with
              | None => None
              | Some r4 =>
                  match take_digits 2 r4 with
                  | None => None
                  | Some (day, _) => Some (year, month, day)
                  end
              end
          end
      end
  end.

Definition formats : list (option ascii) :=
  [ Some "/"%char; Some "-"%char; None ].

Section WithHost.

(** [new Date(s).getTime()] of the host; [None] is an invalid date. *)
Variable Date_parse : string -> option Z.

Fixpoint try_formats (fs : list (option ascii)) (value : string)
  : option Z :=
  match fs with
  | [] => None
  | format :: rest =>
      match match_ymd format value with
      | Some (year, month, day) =>
          match Date_parse (year ++ "-" ++ month ++ "-" ++ day
                            ++ "T00:00:00Z")%string with
          | Some date => Some date
          | None => try_formats rest value
          end
      | None => try_formats rest value
      end
  end.

(** A JSON value is never [instanceof Date]. *)
Definition convert_timestamp (value : JValue) : option Z :=
  match value with
  | JStr s =>
      match try_formats formats s with
      | Some date => Some date
      | None => Date_parse s
      end
  | _ => None
  end.

Definition convert_metric (value : JValue) : Completion string :=
  match value with
  | JStr s => Normal s
  | _ => if truthy value then ToString value else Normal EmptyString
  end.

(** One iteration of the mapping loop.  Every table of the exported
    instance targets [metric], [amount] or [timestamp]; for [client_id]
    (which has no converter) the source would store the raw value. *)
Definition applyMapping (payload : JValue) (normalized : Fields)
  (entry : string * string) : Completion Fields :=
  let '(rawField, canonicalField) := entry in
  if is_some (match payload with
              | JObj props => assoc "hasOwnProperty" props
              | _ => None
              end)
  then Throw "payload.hasOwnProperty is not a function"
  else if hasOwn payload rawField then
    let value := getOwn payload rawField in
    if (canonicalField =? "metric")%string then
      bind (convert_metric value) (fun m =>
      Normal (mkFields (f_client_id normalized) (Some m)
                       (f_amount normalized) (f_timestamp normalized)))
    else if (canonicalField =? "amount")%string then
      Normal (mkFields (f_client_id normalized) (f_metric normalized)
                       (convert_amount value) (f_timestamp normalized))
    else if (canonicalField =? "timestamp")%string then
      Normal (mkFields (f_client_id normalized) (f_metric normalized)
                       (f_amount normalized) (convert_timestamp value))
    else Normal normalized
  else Normal normalized.

Fixpoint mapFields (entries : list (string * string)) (payload : JValue)
  (normalized : Fields) : Completion Fields :=
  match entries with
  | [] => Normal normalized
  | entry :: rest =>
      bind (applyMapping payload normalized entry)
           (fun normalized' => mapFields rest payload normalized')
  end.

Definition hashInput (f : Fields) : string :=
  stringify
    (JObj [ ("client_id", JStr (f_client_id f));
            ("metric", match f_metric f with
                       | Some m => JStr m
                       | None => JNull
                       end);
            ("amount", match f_amount f with
                       | Some a => JNum a
                       | None => JNull
                       end) ]).

Definition normalize (source : string) (payload : JValue)
  : NormalizeResult :=
  if (source =? "")%string || negb (truthy payload)
     || negb (typeof_object payload)
  then Invalid "Invalid event: missing source or payload"
  else
    match mapFields (mappingEntries source) payload
            (mkFields source None None None) with
    | Throw message => Invalid ("Normalization error: " ++ message)
    | Normal f =>
        Canonical
          (mkNormalized (f_client_id f) (f_metric f) (f_amount f)
             (f_timestamp f) (SHA256.digest_hex (hashInput f)))
    end.

End WithHost.

(** Every character is a decimal digit. *)
Fixpoint all_digits (s : string) : bool :=
  match s with
  | EmptyString => true
  | String c r => is_digit c && all_digits r
  end.

(** The value of the first of [keys] that the payload has as an own
    property. *)
Fixpoint firstOwn (payload : JValue) (keys : list string) : option JValue :=
  match keys with
  | [] => None
  | k :: rest =>
      if hasOwn payload k then Some (getOwn payload k)
      else firstOwn payload rest
  end.

End Normalizer.

(** ** A host date parser

    One instance of the host's [new Date(string)]: it reads the form
    [YYYY-MM-DDT00:00:00Z] for a calendar date and rejects every other
    string.  The theorems hold for every parser; the examples use this one. *)

Module Host.
Import Normalizer.

Definition days_from_civil (y m d : Z) : Z :=
  let y' := if m <=? 2 then y - 1 else y in
  let era := y' / 400 in
  let yoe := y' - era * 400 in
  let mp := if 2 <? m then m - 3 else m + 9 in
  let doy := (153 * mp + 2) / 5 + d - 1 in
  let doe := yoe * 365 + yoe / 4 - yoe / 100 + doy in
  era * 146097 + doe - 719468.

Definition days_in_month (y m : Z) : Z :=
  if m =? 2 then
    if ((y mod 4 =? 0) && negb (y mod 100 =? 0)) || (y mod 400 =? 0)
    then 29 else 28
  else if (m =? 4) || (m =? 6) || (m =? 9) || (m =? 11) then 30
  else 31.

Definition Date_parse (s : string) : option Z :=
  match match_ymd (Some "-"%char) s with
  | Some (year, month, day) =>
      let y := digits_value 0 year in
      let m := digits_value 0 month in
      let d := digits_value 0 day in
      if (s =? year ++ "-" ++ month ++ "-" ++ day ++ "T00:00:00Z")%string
         && (1 <=? m) && (m <=? 12) && (1 <=? d)
         && (d <=? days_in_month y m)
      then Some (days_from_civil y m d * 86400000)
      else None
  | None => None
  end.

End Host.

(** ** [backend/models/Event.js] *)

Module Event.
Import JS Normalizer.

Inductive Status : Type :=
| pending | processing | normalized | failed | duplicate.

Definition Status_eqb (a b : Status) : bool :=
  match a, b with
  | pending, pending | processing, processing | normalized, normalized
  | failed, failed | duplicate, duplicate => true
  | _, _ => false
  end.

(** [rawEventSchema]; [raw_id] is the document's [_id].  The bookkeeping
    dates ([receivedAt], [createdAt], [updatedAt]) are left out. *)
Record RawEvent : Type := mkRawEvent
  { raw_id : nat;
    source : string;
    payload : JValue;
    status : Status;
    errorMessage : option string;
    contentHash : string }.

(** [normalizedEventSchema]: the normalized fields (with their
    [normalizedHash], under a unique index) and the raw event's id. *)
Record NormalizedEvent : Type := mkNormalizedEvent
  { norm_id : nat;
    fields : Normalized;
    rawEventId : nat }.

(** The two collections, in natural order. *)
Record Store : Type := mkStore
  { rawEvents : list RawEvent;
    normalizedEvents : list NormalizedEvent }.

Definition emptyStore : Store := mkStore [] [].

(** A new [ObjectId]: any value no document carries. *)
Definition freshId (db : Store) : nat :=
  S (fold_right Nat.max 0%nat
       (map raw_id (rawEvents db) ++ map norm_id (normalizedEvents db))).

(** [Model.findByIdAndUpdate(id, update)] on the raw collection. *)
Fixpoint updateFirst (id : nat) (update : RawEvent -> RawEvent)
  (l : list RawEvent) : list RawEvent :=
  match l with
  | [] => []
  | r :: rest =>
      if (raw_id r =? id)%nat then update r :: rest
      else r :: updateFirst id update rest
  end.

Definition findByIdAndUpdate (id : nat) (update : RawEvent -> RawEvent)
  (db : Store) : Store :=
  mkStore (updateFirst id update (rawEvents db)) (normalizedEvents db).

(** [{ status: s }] *)
Definition setStatus (s : Status) (r : RawEvent) : RawEvent :=
  mkRawEvent (raw_id r) (source r) (payload r) s (errorMessage r)
             (contentHash r).

(** [{ status: 'failed', errorMessage: m }] *)
Definition setFailed (m : string) (r : RawEvent) : RawEvent :=
  mkRawEvent (raw_id r) (source r) (payload r) failed (Some m)
             (contentHash r).

Definition findRawByHash (h : string) (db : Store) : option RawEvent :=
  find (fun r => (contentHash r =? h)%string) (rawEvents db).

Definition findNormalizedByHash (h : string) (db : Store)
  : option NormalizedEvent :=
  find (fun e => (normalizedHash (fields e) =? h)%string)
       (normalizedEvents db).

(** [doc.save()] on the normalized collection: the unique index on
    [normalizedHash] rejects a second document with the same key. *)
Definition duplicateKeyMessage (h : string) : string :=
  ("E11000 duplicate key error index: normalizedHash_1 dup key: " ++ h)
    %string.

Definition save (e : NormalizedEvent) (db : Store) : Completion Store :=
  match findNormalizedByHash (normalizedHash (fields e)) db with
  | Some _ => Throw (duplicateKeyMessage (normalizedHash (fields e)))
  | None => Normal (mkStore (rawEvents db) (normalizedEvents db ++ [e]))
  end.

(** The NormalizedEvents carrying a given [normalizedHash]. *)
Definition withHash (h : string) (db : Store) : list NormalizedEvent :=
  filter (fun e => (normalizedHash (fields e) =? h)%string)
         (normalizedEvents db).

(** No two NormalizedEvents share a [normalizedHash] (the unique index). *)
Definition uniqueHashes (db : Store) : Prop :=
  NoDup (map (fun e => normalizedHash (fields e)) (normalizedEvents db)).

(** No two RawEvents share a [contentHash]. *)
Definition uniqueContent (db : Store) : Prop :=
  NoDup (map contentHash (rawEvents db)).

(** Every NormalizedEvent refers to a RawEvent of the store. *)
Definition referencesResolve (db : Store) : Prop :=
  forall e, In e (normalizedEvents db) ->
            In (rawEventId e) (map raw_id (rawEvents db)).

End Event.

(** ** [backend/services/eventProcessor.js] *)

Module EventProcessor.
Import JS Normalizer Event.

Record RawEventData : Type := mkRawEventData
  { ev_source : string;
    ev_payload : JValue }.

Inductive Reason : Type :=
| reason_duplicate | validation_error | processing_error.

(** The object [processEvent] returns: [{ success: true, ... }] or
    [{ success: false, reason, message, ... }].  The [error] field of a
    [processing_error], [error.toString()], repeats the message. *)
Inductive Result : Type :=
| Processed (message : string) (rawEventId normalizedEventId : nat)
            (normalizedData : Normalized)
| Rejected (reason : Reason) (message : string)
           (eventId normalizedEventId : option nat).

Inductive Outcome : Type :=
| outcome_success | outcome_duplicate
| outcome_validation_error | outcome_processing_error.

Definition outcome (r : Result) : Outcome :=
  match r with
  | Processed _ _ _ _ => outcome_success
  | Rejected reason_duplicate _ _ _ => outcome_duplicate
  | Rejected validation_error _ _ _ => outcome_validation_error
  | Rejected processing_error _ _ _ => outcome_processing_error
  end.

Definition _generateRawHash (rawEventData : RawEventData) : string :=
  SHA256.digest_hex
    (stringify (JObj [ ("source", JStr (ev_source rawEventData));
                       ("payload", ev_payload rawEventData) ])).

(** [RawEvent.findOneAndUpdate({contentHash}, {$setOnInsert}, {upsert})]:
    the matching document untouched, or a new one with status
    [processing]. *)
Definition upsertRaw (h : string) (rawEventData : RawEventData)
  (tx : Store) : RawEvent * Store :=
  match findRawByHash h tx with
  | Some r => (r, tx)
  | None =>
      let r := mkRawEvent (freshId tx) (ev_source rawEventData)
                 (ev_payload rawEventData) processing None h in
      (r, mkStore (rawEvents tx ++ [r]) (normalizedEvents tx))
  end.

(** The RawEvent a call creates (step 3), as it stands with status [s] and
    error message [m]. *)
Definition created (db : Store) (ev : RawEventData) (s : Status)
  (m : option string) : RawEvent :=
  mkRawEvent (freshId db) (ev_source ev) (ev_payload ev) s m
             (_generateRawHash ev).

(** The example input of the specification's atomicity property. *)
Definition exampleEvent : RawEventData :=
  mkRawEventData "A" (JObj [("metric", JStr "x"); ("amount", JStr "10")]).

(** The same key-value pairs as [exampleEvent], in the other key order. *)
Definition exampleEventReordered : RawEventData :=
  mkRawEventData "A" (JObj [("amount", JStr "10"); ("metric", JStr "x")]).

(** A differently written input with the same canonical content as
    [exampleEvent]: other field names, a numeric amount, and a date. *)
Definition exampleEventRenamed : RawEventData :=
  mkRawEventData "A"
    (JObj [("price", JNum 10); ("value", JStr "x");
           ("date", JStr "2024/01/01")]).

(** An input whose payload is not an object. *)
Definition invalidExample : RawEventData :=
  mkRawEventData "A" (JStr "oops").

(** The [catch] block: the transaction is aborted, so the recovery write
    acts on the committed store. *)
Definition recover (committed : Store) (rawEventData : RawEventData)
  (message : string) : Result * Store :=
  let db' :=
    match findRawByHash (_generateRawHash rawEventData) committed with
    | Some rawEvent =>
        findByIdAndUpdate (raw_id rawEvent) (setFailed message) committed
    | None => committed
    end in
  (Rejected processing_error message None None, db').

(** The guard of [normalize]:
    [!source || !payload || typeof payload !== 'object']. *)
Definition invalidEvent (rawEventData : RawEventData) : bool :=
  (ev_source rawEventData =? "")%string
  || negb (truthy (ev_payload rawEventData))
  || negb (typeof_object (ev_payload rawEventData)).

(** The input a RawEvent records. *)
Definition contentOf (r : RawEvent) : RawEventData :=
  mkRawEventData (source r) (payload r).

(** No two different inputs of [evs] share a content hash. *)
Definition collisionFree (evs : list RawEventData) : Prop :=
  forall a b, In a evs -> In b evs ->
              _generateRawHash a = _generateRawHash b -> a = b.

(** The statuses a committed RawEvent ends in. *)
Definition final (s : Status) : Prop :=
  s = normalized \/ s = failed \/ s = duplicate.

(** How a call on an input with content hash [h] may leave a RawEvent [r]:
    as it is, or, when it records that input and is not [normalized], with
    a new final status; identity and content stay. *)
Definition moved (h : string) (r r' : RawEvent) : Prop :=
  raw_id r' = raw_id r
  /\ source r' = source r
  /\ payload r' = payload r
  /\ contentHash r' = contentHash r
  /\ (r' = r
      \/ (contentHash r = h /\ status r <> normalized
          /\ final (status r'))).

(** The updates [processEvent] applies: they set a final status and keep
    identity and content. *)
Definition finalizes (f : RawEvent -> RawEvent) : Prop :=
  forall x, raw_id (f x) = raw_id x /\ source (f x) = source x
            /\ payload (f x) = payload x
            /\ contentHash (f x) = contentHash x
            /\ final (status (f x)).

(** Where the [try] block stands after step 5. *)
Inductive Checked : Type :=
| Return (r : Result) (db' : Store)
| Continue (rawEvent : RawEvent) (tx : Store) (n : Normalized).

Section WithHost.

Variable Date_parse : string -> option Z.

(** Steps 3 to 5, on the transaction's working copy [db]. *)
Definition steps3to5 (db : Store) (rawEventData : RawEventData)
  (rawContentHash : string) : Checked :=
  let '(rawEvent, tx) := upsertRaw rawContentHash rawEventData db in
  match normalize Date_parse (ev_source rawEventData)
          (ev_payload rawEventData) with
  | Invalid error =>
      Return (Rejected validation_error error
                (Some (raw_id rawEvent)) None)
             (findByIdAndUpdate (raw_id rawEvent) (setFailed error) tx)
  | Canonical n =>
      match findNormalizedByHash (normalizedHash n) tx with
      | Some existingNormalized =>
          Return (Rejected reason_duplicate
                    "Normalized event already exists"
                    (Some (raw_id rawEvent))
                    (Some (norm_id existingNormalized)))
                 (findByIdAndUpdate (raw_id rawEvent)
                    (setStatus duplicate) tx)
      | None => Continue rawEvent tx n
      end
  end.

(** Steps 1 and 2, then the above.  [abortTransaction] returns the
    store as it was. *)
Definition steps1to5 (db : Store) (rawEventData : RawEventData)
  : Checked :=
  let rawContentHash := _generateRawHash rawEventData in
  let existingRaw :=
    find (fun r => (contentHash r =? rawContentHash)%string
                   && (Status_eqb (status r) normalized
                       || Status_eqb (status r) processing))
         (rawEvents db) in
  match existingRaw with
  | Some r =>
      if Status_eqb (status r) normalized then
        Return (Rejected reason_duplicate "Event already processed"
                  (Some (raw_id r)) None) db
      else steps3to5 db rawEventData rawContentHash
  | None => steps3to5 db rawEventData rawContentHash
  end.

(** Steps 6 to 9 and the [catch] block.  [committed] is the store an
    abort falls back to, [tx] the working copy the writes go to. *)
Definition steps6to9 (committed : Store) (rawEvent : RawEvent)
  (tx : Store) (n : Normalized) (rawEventData : RawEventData)
  (simulateFailure : bool) : Result * Store :=
  if simulateFailure then
    recover committed rawEventData "Simulated database failure"
  else
    let normalizedEvent :=
      mkNormalizedEvent (freshId tx) n (raw_id rawEvent) in
    match save normalizedEvent tx with
    | Throw message => recover committed rawEventData message
    | Normal tx' =>
        (Processed "Event processed successfully" (raw_id rawEvent)
           (norm_id normalizedEvent) n,
         findByIdAndUpdate (raw_id rawEvent) (setStatus normalized) tx')
    end.

(** [processEvent(rawEventData, simulateFailure)] run on its own: the
    result object and the committed store. *)
Definition processEvent (db : Store) (rawEventData : RawEventData)
  (simulateFailure : bool) : Result * Store :=
  match steps1to5 db rawEventData with
  | Return r db' => (r, db')
  | Continue rawEvent tx n =>
      steps6to9 db rawEvent tx n rawEventData simulateFailure
  end.

(** The documents [others] that other callers commit while this call
    awaits between its step 5 read and its step 7 write, added to a
    store. *)
Definition interfere (others : Store) (db : Store) : Store :=
  mkStore (rawEvents db ++ rawEvents others)
          (normalizedEvents db ++ normalizedEvents others).

(** The same call when [others] are committed at that point: steps 1 to 5
    ran on the snapshot [db]; the insert of step 7 meets the unique index of
    the collection as it then is; an abort falls back to the store the
    others have committed to. *)
Definition processEventRacing (others : Store) (db : Store)
  (rawEventData : RawEventData) (simulateFailure : bool)
  : Result * Store :=
  match steps1to5 db rawEventData with
  | Return r db' => (r, db')
  | Continue rawEvent tx n =>
      steps6to9 (interfere others db) rawEvent (interfere others tx) n
                rawEventData simulateFailure
  end.

(** A sequence of calls, each with its [simulateFailure] flag. *)
Definition run (db : Store) (calls : list (RawEventData * bool)) : Store :=
  fold_left (fun d c => snd (processEvent d (fst c) (snd c))) calls db.

(** What the status of a committed RawEvent records about its input. *)
Definition settled (db : Store) (r : RawEvent) : Prop :=
  match status r with
  | normalized => True
  | failed =>
      exists error,
        normalize Date_parse (source r) (payload r) = Invalid error
        /\ errorMessage r = Some error
  | duplicate =>
      exists n,
        normalize Date_parse (source r) (payload r) = Canonical n
        /\ findNormalizedByHash (normalizedHash n) db <> None
  | pending | processing => False
  end.

(** The stores the calls on inputs of [U] keep to: ids are distinct, and
    each RawEvent is the one document of its content hash, records an input
    of [U], and is settled. *)
Definition consistent (U : list RawEventData) (db : Store) : Prop :=
  NoDup (map raw_id (rawEvents db))
  /\ forall r, In r (rawEvents db) ->
       In (contentOf r) U
       /\ contentHash r = _generateRawHash (contentOf r)
       /\ findRawByHash (contentHash r) db = Some r
       /\ settled db r.

(** [getStatistics()] *)
Record Statistics : Type := mkStatistics
  { totalProcessed : nat;
    totalFailed : nat;
    totalDuplicates : nat;
    totalNormalized : nat }.

Definition countRaw (s : Status) (db : Store) : nat :=
  List.length (filter (fun r => Status_eqb (status r) s) (rawEvents db)).

Definition getStatistics (db : Store) : Statistics :=
  mkStatistics (countRaw normalized db) (countRaw failed db)
    (countRaw duplicate db) (List.length (normalizedEvents db)).

(** The NormalizedEvents are, in order, those of the [normalized]
    RawEvents: each refers to its RawEvent and carries the canonical form
    of that RawEvent's source and payload. *)
Definition linked (db : Store) : Prop :=
  Forall2 (fun e r =>
             rawEventId e = raw_id r
             /\ normalize Date_parse (source r) (payload r)
                = Canonical (fields e))
    (normalizedEvents db)
    (filter (fun r => Status_eqb (status r) normalized) (rawEvents db)).

End WithHost.

(** What a concurrent call on [exampleEventRenamed] commits to an empty
    store. *)
Definition raceWinner : Store :=
  snd (processEvent Host.Date_parse emptyStore exampleEventRenamed false).

(** What a concurrent call on [exampleEvent] itself commits to an empty
    store, and the store left when a second call on [exampleEvent] loses the
    race against it. *)
Definition sameInputWinner : Store :=
  snd (processEvent Host.Date_parse emptyStore exampleEvent false).

Definition afterLostRace : Store :=
  snd (processEventRacing Host.Date_parse sameInputWinner emptyStore
         exampleEvent false).

(** A store holding the RawEvent of [exampleEvent] with status [failed], as
    the recovery write of the [catch] block marks it. *)
Definition failedStore : Store :=
  mkStore [created emptyStore exampleEvent failed
             (Some "Simulated database failure")] [].

End EventProcessor.

(** ** [backend/routes/events.js], [POST /api/events] *)

Module Routes.
Import JS Normalizer Event EventProcessor.

(** The handler on the body fields ([None] is a missing field): the HTTP
    status, the result object when [processEvent] was called, and the
    store. *)
Definition postEvents (Date_parse : string -> option Z) (db : Store)
  (source : option string) (payload : option JValue)
  (simulateFailure : option JValue) : nat * option Result * Store :=
  match source, payload with
  | Some s, Some p =>
      if (s =? "")%string || negb (truthy p) then (400%nat, None, db)
      else
        let '(result, db') :=
          processEvent Date_parse db (mkRawEventData s p)
            (match simulateFailure with
             | Some (JBool true) => true
             | _ => false
             end) in
        (match result with
         | Processed _ _ _ _ => 201%nat
         | Rejected reason_duplicate _ _ _ => 200%nat
         | Rejected _ _ _ _ => 400%nat
         end, Some result, db')
  | _, _ => (400%nat, None, db)
  end.

End Routes.

(** ** [backend/routes/aggregates.js] *)

Module Aggregates.
Import JS Normalizer Event.

(** The [$match] stage's query; the dates are the time values of
    [new Date(startDate)] and [new Date(endDate)]. *)
Record Query : Type := mkQuery
  { q_client_id : option string;
    q_gte : option Z;
    q_lte : option Z }.

(** [if (client_id) query.client_id = client_id]: an empty string is
    no filter. *)
Definition buildQuery (client_id : option string)
  (startDate endDate : option Z) : Query :=
  mkQuery (match client_id with
           | Some c => if (c =? "")%string then None else Some c
           | None => None
           end) startDate endDate.

(** A range operator never matches a null timestamp. *)
Definition matches (q : Query) (e : NormalizedEvent) : bool :=
  (match q_client_id q with
   | Some c => (client_id (fields e) =? c)%string
   | None => true
   end)
  && (match q_gte q, timestamp (fields e) with
      | Some lo, Some t => lo <=? t
      | Some _, None => false
      | None, _ => true
      end)
  && (match q_lte q, timestamp (fields e) with
      | Some hi, Some t => t <=? hi
      | Some _, None => false
      | None, _ => true
      end).

Definition option_string_eqb (a b : option string) : bool :=
  match a, b with
  | Some x, Some y => (x =? y)%string
  | None, None => true
  | _, _ => false
  end.

(** First occurrences, in order ([$group] keys, [$addToSet]). *)
Fixpoint distinct (seen : list (option string)) (l : list (option string))
  : list (option string) :=
  match l with
  | [] => []
  | x :: r =>
      if existsb (option_string_eqb x) seen then distinct seen r
      else x :: distinct (x :: seen) r
  end.

(** [{ $ifNull: ['$amount', 0] }] *)
Definition amountOrZero (e : NormalizedEvent) : Q :=
  match amount (fields e) with
  | Some a => a
  | None => 0%Q
  end.

Definition Qsum (l : list Q) : Q := Qred (fold_left Qplus l 0%Q).

Definition Qavg (l : list Q) : Q :=
  Qred (Qsum l / inject_Z (Z.of_nat (List.length l))).

Definition Qmin_list (l : list Q) : Q :=
  match l with
  | [] => 0%Q
  | x :: r => fold_left (fun m y => if Qle_bool y m then y else m) r x
  end.

Definition Qmax_list (l : list Q) : Q :=
  match l with
  | [] => 0%Q
  | x :: r => fold_left (fun m y => if Qle_bool m y then y else m) r x
  end.

(** [{ $round: [x, 2] }]: to the nearest hundredth, ties to even. *)
Definition round2 (x : Q) : Q :=
  let n := Qnum x * 100 in
  let d := Z.pos (Qden x) in
  let q := n / d in
  let r := n mod d in
  let q' := if 2 * r <? d then q
            else if d <? 2 * r then q + 1
            else if Z.even q then q else q + 1 in
  Qred (q' # 100).

(** [$min] and [$max] over an array skip nulls. *)
Definition Zmin_present (l : list (option Z)) : option Z :=
  fold_left (fun acc t =>
               match acc, t with
               | Some a, Some b => Some (Z.min a b)
               | None, Some b => Some b
               | _, None => acc
               end) l None.

Definition Zmax_present (l : list (option Z)) : option Z :=
  fold_left (fun acc t =>
               match acc, t with
               | Some a, Some b => Some (Z.max a b)
               | None, Some b => Some b
               | _, None => acc
               end) l None.

(** One document after [$group] and [$project] of [GET /]. *)
Record Grouped : Type := mkGrouped
  { g_id : option string;
    totalAmount : Q;
    averageAmount : Q;
    count : nat;
    minAmount : Q;
    maxAmount : Q;
    uniqueMetrics : list (option string);
    dateRange_min : option Z;
    dateRange_max : option Z }.

Definition groupKey (byClient : bool) (e : NormalizedEvent)
  : option string :=
  if byClient then Some (client_id (fields e)) else None.

Definition groupOf (byClient : bool) (docs : list NormalizedEvent)
  (key : option string) : list NormalizedEvent :=
  filter (fun e => option_string_eqb (groupKey byClient e) key) docs.

Definition pipeline (q : Query) (byClient : bool)
  (docs : list NormalizedEvent) : list Grouped :=
  let matched := filter (matches q) docs in
  map (fun key =>
         let members := groupOf byClient matched key in
         let amounts := map amountOrZero members in
         let dates := map (fun e => timestamp (fields e)) members in
         mkGrouped key
           (round2 (Qsum amounts))
           (round2 (Qavg amounts))
           (List.length members)
           (Qmin_list amounts)
           (Qmax_list amounts)
           (distinct [] (map (fun e => metric (fields e)) members))
           (Zmin_present dates)
           (Zmax_present dates))
      (distinct [] (map (groupKey byClient) matched)).

(** An element of [formattedResults]. *)
Record Summary : Type := mkSummary
  { group : string;
    totals_amount : Q;
    totals_count : nat;
    averages_amount : Q;
    ranges_amount_min : Q;
    ranges_amount_max : Q;
    ranges_date_min : option Z;
    ranges_date_max : option Z;
    metrics : list string }.

Definition format (result : Grouped) : Summary :=
  mkSummary
    (match g_id result with
     | Some g => if (g =? "")%string then "all" else g
     | None => "all"
     end)
    (totalAmount result) (count result) (averageAmount result)
    (minAmount result) (maxAmount result)
    (dateRange_min result) (dateRange_max result)
    (flat_map (fun m => match m with
                        | Some s => if (s =? "")%string then [] else [s]
                        | None => []
                        end) (uniqueMetrics result)).

(** [GET /api/aggregates]: [groupBy === 'client'] groups by client. *)
Definition getAggregates (db : Store) (client_id : option string)
  (startDate endDate : option Z) (groupBy : option string)
  : list Summary :=
  let byClient := option_string_eqb groupBy (Some "client") in
  map format
    (pipeline (buildQuery client_id startDate endDate) byClient
       (normalizedEvents db)).

(** One document of [GET /api/aggregates/by-client]. *)
Record ClientTotals : Type := mkClientTotals
  { ct_client_id : string;
    ct_totalAmount : Q;
    ct_averageAmount : Q;
    ct_count : nat;
    ct_metrics : list (option string) }.

(** [{ $sort: { totalAmount: -1 } }] *)
Fixpoint insertDesc (x : ClientTotals) (l : list ClientTotals)
  : list ClientTotals :=
  match l with
  | [] => [x]
  | y :: r =>
      if Qle_bool (ct_totalAmount y) (ct_totalAmount x)
         && negb (Qeq_bool (ct_totalAmount y) (ct_totalAmount x))
      then x :: l
      else y :: insertDesc x r
  end.

Definition sortDesc (l : list ClientTotals) : list ClientTotals :=
  fold_left (fun acc x => insertDesc x acc) l [].

Definition getAggregatesByClient (db : Store)
  (startDate endDate : option Z) : list ClientTotals :=
  let matched :=
    filter (matches (mkQuery None startDate endDate))
           (normalizedEvents db) in
  sortDesc
    (map (fun key =>
            let members := groupOf true matched key in
            let amounts := map amountOrZero members in
            mkClientTotals
              (match key with Some c => c | None => EmptyString end)
              (round2 (Qsum amounts))
              (round2 (Qavg amounts))
              (List.length members)
              (distinct [] (map (fun e => metric (fields e)) members)))
         (distinct [] (map (groupKey true) matched))).

(** The figures of a summary: group, count, total, average, min, max. *)
Definition figures (s : Summary) : string * nat * Q * Q * Q * Q :=
  (group s, totals_count s, totals_amount s, averages_amount s,
   ranges_amount_min s, ranges_amount_max s).

(** The summary of group [g], if any. *)
Definition summaryOf (g : string) (results : list Summary)
  : option (string * nat * Q * Q * Q * Q) :=
  option_map figures (find (fun s => (group s =? g)%string) results).

(** A NormalizedEvent of client [c] with amount [a]. *)
Definition eventOf (id : nat) (c : string) (a : Q) (m : option string)
  (t : option Z) (h : string) (raw : nat) : NormalizedEvent :=
  mkNormalizedEvent id (mkNormalized c m (Some a) t h) raw.

End Aggregates.

(** * Properties *)

Example sha256_abc :
  SHA256.digest_hex "abc"
  = "ba7816bf8f01cfea414140de5dae2223b00361a396177a9cb410ff61f20015ad".
Proof. vm_compute. reflexivity. Qed.

Example sha256_empty :
  SHA256.digest_hex ""
  = "e3b0c44298fc1c149afbf4c8996fb92427ae41e4649b934ca495991b7852b855".
Proof. vm_compute. reflexivity. Qed.

Example sha256_two_blocks :
  SHA256.digest_hex "abcdbcdecdefdefgefghfghighijhijkijkljklmklmnlmnomnopnopq"
  = "248d6a61d20638b8e5c026930c3e6039a33ce45964ff2167f6ecedd419db06c1".
Proof. vm_compute. reflexivity. Qed.

(** ** The Normalizer on the documented examples *)

Example normalize_readme_example :
  Normalizer.normalize Host.Date_parse "client_A"
    (JS.JObj [("value", JS.JStr "sales"); ("price", JS.JStr "1200");
              ("date", JS.JStr "2024/01/01")])
  = Normalizer.Canonical
      (Normalizer.mkNormalized "client_A" (Some "sales") (Some 1200%Q)
         (Some 1704067200000)
         "88ba62433e50e10a8480232a8d174e195dfebb275f16eef5391ae84d32d0d3a9").
Proof. vm_compute. reflexivity. Qed.

Example convert_amount_thousands :
  Normalizer.convert_amount (JS.JStr "1,200.50") = Some (2401 # 2)%Q.
Proof. vm_compute. reflexivity. Qed.

Example convert_timestamp_not_a_date :
  Normalizer.convert_timestamp Host.Date_parse (JS.JStr "not-a-date") = None.
Proof. vm_compute. reflexivity. Qed.

Example normalize_unrecognized_fields :
  Normalizer.normalize Host.Date_parse "A" (JS.JObj [("foo", JS.JNum 1)])
  = Normalizer.Canonical
      (Normalizer.mkNormalized "A" None None None
         "0e7fc39c985c25041f635a549a7cf5c9d632d3b3ac85e262028b67ee3e09710c").
Proof. vm_compute. reflexivity. Qed.

Example raw_hash_of_example :
  EventProcessor._generateRawHash EventProcessor.exampleEvent
  = "167350986906296ac345fe2b2367de199f74dfbbdd3d519591e8f2a8a12404f5".
Proof. vm_compute. reflexivity. Qed.

Import JS Normalizer Event EventProcessor.

(** ** Lists and lookups *)

Lemma find_none_filter {A} (p : A -> bool) (l : list A) :
  find p l = None -> filter p l = [].
Proof.
  induction l as [|x l IH]; simpl; [reflexivity|].
  destruct (p x); [discriminate|exact IH].
Qed.

Lemma find_app_some {A} (p : A -> bool) (l l' : list A) x :
  find p l = Some x -> find p (l ++ l') = Some x.
Proof.
  induction l as [|y l IH]; simpl; [discriminate|].
  destruct (p y); [trivial|exact IH].
Qed.

Lemma find_app_none {A} (p : A -> bool) (l l' : list A) :
  find p l = None -> find p (l ++ l') = find p l'.
Proof.
  induction l as [|y l IH]; simpl; [reflexivity|].
  destruct (p y); [discriminate|exact IH].
Qed.

Lemma find_is_some_app {A} (p : A -> bool) (l : list A) x :
  p x = true -> find p (l ++ [x]) <> None.
Proof.
  intros Hx. induction l as [|y l IH]; simpl.
  - rewrite Hx. discriminate.
  - destruct (p y); [discriminate|exact IH].
Qed.

(** ** The store operations *)

Lemma findByIdAndUpdate_normalized id f db :
  normalizedEvents (findByIdAndUpdate id f db) = normalizedEvents db.
Proof. reflexivity. Qed.

Lemma upsertRaw_normalized h ev db :
  normalizedEvents (snd (upsertRaw h ev db)) = normalizedEvents db.
Proof.
  unfold upsertRaw. destruct (findRawByHash h db); reflexivity.
Qed.

Lemma upsertRaw_hash h ev db :
  contentHash (fst (upsertRaw h ev db)) = h.
Proof.
  unfold upsertRaw, findRawByHash.
  destruct (find _ (rawEvents db)) as [r|] eqn:E; simpl; [|reflexivity].
  apply find_some in E. destruct E as [_ E].
  now apply String.eqb_eq in E.
Qed.

Lemma Status_eqb_eq a b : Status_eqb a b = true <-> a = b.
Proof. destruct a, b; simpl; split; intros H; congruence. Qed.

Lemma fold_max_ge (l : list nat) x : In x l -> (x <= fold_right Nat.max 0 l)%nat.
Proof.
  induction l as [|y l IH]; simpl; [contradiction|].
  intros [->|H]; [lia|]. specialize (IH H). lia.
Qed.

Lemma freshId_raw db r : In r (rawEvents db) -> (raw_id r < freshId db)%nat.
Proof.
  intros H. unfold freshId. apply Nat.lt_succ_r, fold_max_ge.
  apply in_or_app. left. now apply in_map.
Qed.

Lemma updateFirst_ids id f l :
  (forall x, raw_id (f x) = raw_id x) ->
  map raw_id (updateFirst id f l) = map raw_id l.
Proof.
  intros Hf. induction l as [|x l IH]; simpl; [reflexivity|].
  destruct (raw_id x =? id)%nat; simpl; [now rewrite Hf|now rewrite IH].
Qed.

Lemma updateFirst_absent id f l :
  (forall x, In x l -> raw_id x <> id) -> updateFirst id f l = l.
Proof.
  induction l as [|x l IH]; simpl; [reflexivity|]. intros H.
  destruct (Nat.eqb_spec (raw_id x) id) as [E|_].
  - exfalso. apply (H x); auto.
  - f_equal. apply IH. intros y Hy. apply H. now right.
Qed.

Lemma updateFirst_last id f l r :
  (forall x, In x l -> raw_id x <> id) -> raw_id r = id ->
  updateFirst id f (l ++ [r]) = l ++ [f r].
Proof.
  induction l as [|x l IH]; simpl; intros H Hr.
  - now rewrite Hr, Nat.eqb_refl.
  - destruct (Nat.eqb_spec (raw_id x) id) as [E|_].
    + exfalso. apply (H x); auto.
    + f_equal. apply IH; auto.
Qed.

(** With distinct ids, updating the document found by its hash is seen by
    the next lookup by that hash. *)
Lemma updateFirst_found h f l r :
  NoDup (map raw_id l) ->
  (forall x, contentHash (f x) = contentHash x) ->
  find (fun x => (contentHash x =? h)%string) l = Some r ->
  find (fun x => (contentHash x =? h)%string) (updateFirst (raw_id r) f l)
  = Some (f r).
Proof.
  intros Hnd Hf. induction l as [|x l IH]; simpl; [discriminate|].
  inversion Hnd as [|? ? Hx Hl]; subst.
  destruct (contentHash x =? h)%string eqn:E.
  - intros H. inversion H; subst. rewrite Nat.eqb_refl. simpl.
    now rewrite Hf, E.
  - intros H. destruct (Nat.eqb_spec (raw_id x) (raw_id r)) as [Eid|_].
    + exfalso. apply Hx. rewrite Eid. apply in_map.
      now apply find_some in H.
    + simpl. rewrite E. now apply IH.
Qed.

(** Documents with another hash are not affected. *)
Lemma updateFirst_other h f id l :
  (forall x, contentHash (f x) = contentHash x) ->
  find (fun x => (contentHash x =? h)%string) l = None ->
  find (fun x => (contentHash x =? h)%string) (updateFirst id f l) = None.
Proof.
  intros Hf. induction l as [|x l IH]; simpl; [trivial|].
  destruct (contentHash x =? h)%string eqn:E; [discriminate|]. intros H.
  destruct (raw_id x =? id)%nat; simpl.
  - now rewrite Hf, E.
  - rewrite E. now apply IH.
Qed.

Lemma find_and_first {A} (p q : A -> bool) (l : list A) r :
  find p l = Some r -> q r = true ->
  find (fun x => p x && q x) l = Some r.
Proof.
  induction l as [|x l IH]; simpl; [discriminate|].
  destruct (p x) eqn:P; simpl.
  - intros H Hq. inversion H; subst. now rewrite Hq.
  - exact IH.
Qed.

Lemma moved_refl h r : moved h r r.
Proof. unfold moved. auto 6. Qed.

Lemma moved_all h l : Forall2 (moved h) l l.
Proof. induction l; constructor; auto using moved_refl. Qed.

Lemma setFailed_finalizes m : finalizes (setFailed m).
Proof. intros x. unfold final. simpl. auto 8. Qed.

Lemma setStatus_finalizes s : final s -> finalizes (setStatus s).
Proof. intros Hs x. simpl. auto 8. Qed.

Lemma updateFirst_moved h f l r0 :
  NoDup (map raw_id l) ->
  find (fun x => (contentHash x =? h)%string) l = Some r0 ->
  status r0 <> normalized ->
  finalizes f ->
  Forall2 (moved h) l (updateFirst (raw_id r0) f l).
Proof.
  intros Hnd Hfind Hst Hf. induction l as [|x l IH]; simpl in *;
    [discriminate|].
  inversion Hnd as [|? ? Hx Hl]; subst.
  destruct (contentHash x =? h)%string eqn:E.
  - inversion Hfind; subst. rewrite Nat.eqb_refl.
    constructor; [|apply moved_all].
    destruct (Hf r0) as (H1 & H2 & H3 & H4 & H5).
    apply String.eqb_eq in E. unfold moved. auto 8.
  - destruct (Nat.eqb_spec (raw_id x) (raw_id r0)) as [Eid|_].
    + exfalso. apply Hx. rewrite Eid. apply in_map.
      now apply find_some in Hfind.
    + constructor; [apply moved_refl|auto].
Qed.

(** The route answers 400 without calling [processEvent] when the source or
    the payload is missing or falsy: nothing is written. *)
Lemma postEvents_missing_fields Date_parse db source payload simulateFailure :
  match source, payload with
  | Some s, Some p => s = "" \/ truthy p = false
  | _, _ => True
  end ->
  Routes.postEvents Date_parse db source payload simulateFailure
  = (400%nat, None, db).
Proof.
  unfold Routes.postEvents. destruct source as [s|], payload as [p|]; auto.
  intros [->|Hp]; [reflexivity|].
  rewrite Hp. now rewrite orb_true_r.
Qed.

(** Inputs drawn from a list with pairwise distinct hashes do not collide. *)
Lemma collisionFree_within (base evs : list RawEventData) :
  NoDup (map _generateRawHash base) ->
  (forall a, In a evs -> In a base) ->
  collisionFree evs.
Proof.
  intros Hnd Hsub a b Ha Hb Hh.
  apply Hsub in Ha. apply Hsub in Hb. clear Hsub.
  induction base as [|x base IH]; [contradiction|].
  simpl in Hnd. inversion Hnd as [|? ? Hx Hnd']; subst.
  destruct Ha as [->|Ha], Hb as [->|Hb]; auto.
  - exfalso. apply Hx. rewrite Hh. now apply in_map.
  - exfalso. apply Hx. rewrite <- Hh. now apply in_map.
Qed.

(** Induction on JSON values through the elements of arrays. *)
Lemma JValue_array_ind (P : JValue -> Prop) :
  P JNull -> (forall b, P (JBool b)) -> (forall n, P (JNum n)) ->
  (forall s, P (JStr s)) ->
  (forall xs, Forall P xs -> P (JArr xs)) ->
  (forall props, P (JObj props)) ->
  forall v, P v.
Proof.
  intros Hnull Hbool Hnum Hstr Harr Hobj.
  fix IH 1. intros [| b | n | s | xs | props].
  - exact Hnull.
  - apply Hbool.
  - apply Hnum.
  - apply Hstr.
  - apply Harr.
    induction xs as [|x xs IHxs]; constructor; [apply IH|exact IHxs].
  - apply Hobj.
Qed.

(** [String(v)] returns for the values of [stringable] and throws for the
    others. *)
Lemma ToString_stringable v :
  if stringable v
  then exists s, ToString v = Normal s
  else ToString v = Throw "Cannot convert object to primitive value".
Proof.
  induction v as [| b | q | s | xs IHxs | props] using JValue_array_ind.
  - simpl. eauto.
  - destruct b; simpl; eauto.
  - simpl. eauto.
  - simpl. eauto.
  - cbn [stringable ToString].
    match goal with
    | |- if ?all xs then (exists s, ?join true xs = _) else _ =>
        cut (forall first,
                if all xs
                then exists s, join first xs = Normal s
                else join first xs
                     = Throw "Cannot convert object to primitive value");
          [intros C; apply C|]
    end.
    induction IHxs as [|x xs Hx _ IH]; intros first; [simpl; eauto|].
    cbn [andb]. destruct (stringable x) eqn:Sx.
    + destruct Hx as [sx Ex]. cbn [andb].
      specialize (IH false).
      match type of IH with
      | if ?c then _ else _ => destruct c
      end.
      * destruct IH as [sr Er].
        destruct x; rewrite ?Ex, Er; simpl; eauto.
      * destruct x; rewrite ?Ex, IH; reflexivity.
    + cbn [andb]. destruct x; try discriminate; now rewrite Hx.
  - simpl. destruct (is_some (assoc "toString" props)); simpl; eauto.
Qed.

Lemma convert_metric_stringable v :
  if stringable v
  then exists s, convert_metric v = Normal s
  else convert_metric v = Throw "Cannot convert object to primitive value".
Proof.
  pose proof (ToString_stringable v) as H. unfold convert_metric.
  destruct v as [| b | q | s | xs | props]; cbn [truthy].
  - simpl. eauto.
  - simpl. destruct b; eauto.
  - simpl. destruct (negb (Qeq_bool q 0)); eauto.
  - simpl. eauto.
  - exact H.
  - exact H.
Qed.

Section Processor.

Variable Date_parse : string -> option Z.

#[local] Abbreviation normalize := (Normalizer.normalize Date_parse).
#[local] Abbreviation processEvent := (EventProcessor.processEvent Date_parse).
#[local] Abbreviation steps1to5 := (EventProcessor.steps1to5 Date_parse).
#[local] Abbreviation steps3to5 := (EventProcessor.steps3to5 Date_parse).

(** What a [Continue] of steps 3 to 5 carries. *)
Lemma steps3to5_continue db ev h rawEvent tx n :
  steps3to5 db ev h = Continue rawEvent tx n ->
  (rawEvent, tx) = upsertRaw h ev db
  /\ normalize (ev_source ev) (ev_payload ev) = Canonical n
  /\ findNormalizedByHash (normalizedHash n) tx = None.
Proof.
  unfold EventProcessor.steps3to5.
  destruct (upsertRaw h ev db) as [r t].
  destruct (normalize _ _) as [m|err]; [|discriminate].
  destruct (findNormalizedByHash _ t) eqn:E; [discriminate|].
  intros H. inversion H; subst. auto.
Qed.

Lemma steps1to5_continue db ev rawEvent tx n :
  steps1to5 db ev = Continue rawEvent tx n ->
  steps3to5 db ev (_generateRawHash ev) = Continue rawEvent tx n.
Proof.
  unfold EventProcessor.steps1to5.
  destruct (find _ (rawEvents db)) as [r|]; [|trivial].
  destruct (Status_eqb (status r) normalized); [discriminate|trivial].
Qed.

(** A successful call, taken apart. *)
Lemma processEvent_success db ev sim message rid nid n db1 :
  processEvent db ev sim = (Processed message rid nid n, db1) ->
  exists rawEvent tx,
    (rawEvent, tx) = upsertRaw (_generateRawHash ev) ev db
    /\ normalize (ev_source ev) (ev_payload ev) = Canonical n
    /\ findNormalizedByHash (normalizedHash n) db = None
    /\ sim = false
    /\ rid = raw_id rawEvent
    /\ nid = freshId tx
    /\ db1 = findByIdAndUpdate rid (setStatus normalized)
               (mkStore (rawEvents tx)
                  (normalizedEvents db
                   ++ [mkNormalizedEvent nid n rid])).
Proof.
  unfold EventProcessor.processEvent.
  destruct (steps1to5 db ev) as [r d|rawEvent tx m] eqn:E.
  - intros H. inversion H; subst.
    exfalso. revert E. unfold EventProcessor.steps1to5.
    assert (S35 : forall h d', steps3to5 db ev h
                    <> Return (Processed message rid nid n) d').
    { intros h d'. unfold EventProcessor.steps3to5.
      destruct (upsertRaw h ev db).
      destruct (normalize _ _); [|discriminate].
      destruct (findNormalizedByHash _ _); discriminate. }
    destruct (find _ (rawEvents db)) as [x|].
    + destruct (Status_eqb (status x) normalized); [discriminate|].
      apply S35.
    + apply S35.
  - apply steps1to5_continue, steps3to5_continue in E.
    destruct E as (Hu & Hn & Hf).
    assert (Hne : normalizedEvents tx = normalizedEvents db).
    { pose proof (upsertRaw_normalized (_generateRawHash ev) ev db) as P.
      rewrite <- Hu in P. exact P. }
    unfold EventProcessor.steps6to9, recover.
    destruct sim; [discriminate|].
    unfold save. simpl. rewrite Hf.
    intros H. inversion H; subst.
    exists rawEvent, tx. repeat split; auto.
    + unfold findNormalizedByHash in *. now rewrite <- Hne.
    + now rewrite Hne.
Qed.

(** Once a NormalizedEvent with the input's hash is stored, the call can
    only answer [duplicate], and it writes no NormalizedEvent. *)
Lemma processEvent_existing_normalized db ev sim n :
  normalize (ev_source ev) (ev_payload ev) = Canonical n ->
  findNormalizedByHash (normalizedHash n) db <> None ->
  outcome (fst (processEvent db ev sim)) = outcome_duplicate
  /\ normalizedEvents (snd (processEvent db ev sim)) = normalizedEvents db.
Proof.
  intros Hn Hf.
  assert (S35 : forall h,
             match steps3to5 db ev h with
             | Return r d => outcome r = outcome_duplicate
                             /\ normalizedEvents d = normalizedEvents db
             | Continue _ _ _ => False
             end).
  { intros h. unfold EventProcessor.steps3to5.
    pose proof (upsertRaw_normalized h ev db) as P.
    destruct (upsertRaw h ev db) as [r t]. simpl in P.
    rewrite Hn.
    destruct (findNormalizedByHash (normalizedHash n) t) eqn:E.
    - simpl. auto.
    - unfold findNormalizedByHash in *. rewrite P in E. contradiction. }
  unfold EventProcessor.processEvent, EventProcessor.steps1to5.
  destruct (find _ (rawEvents db)) as [x|].
  - destruct (Status_eqb (status x) normalized).
    + simpl. auto.
    + specialize (S35 (_generateRawHash ev)).
      destruct (steps3to5 db ev _); [exact S35|contradiction].
  - specialize (S35 (_generateRawHash ev)).
    destruct (steps3to5 db ev _); [exact S35|contradiction].
Qed.

(** C1.  If a first call of [processEvent] on an input returns [success],
    a second call on the same (source, payload) returns [duplicate] and
    writes no NormalizedEvent: the store then holds exactly one
    NormalizedEvent with the input's normalized hash, the one the first call
    created. *)
Theorem C1_identical_input_twice db ev sim1 sim2 :
  outcome (fst (processEvent db ev sim1)) = outcome_success ->
  let db1 := snd (processEvent db ev sim1) in
  let second := processEvent db1 ev sim2 in
  outcome (fst second) = outcome_duplicate
  /\ normalizedEvents (snd second) = normalizedEvents db1
  /\ exists n e,
       normalize (ev_source ev) (ev_payload ev) = Canonical n
       /\ withHash (normalizedHash n) db = []
       /\ withHash (normalizedHash n) (snd second) = [e]
       /\ fields e = n.
Proof.
  intros H.
  destruct (processEvent db ev sim1) as [r db1'] eqn:E. simpl in H.
  destruct r as [message rid nid n|reason ? ? ?];
    [|destruct reason; discriminate].
  apply processEvent_success in E.
  destruct E as (rawEvent & tx & Hu & Hn & Hf & _ & _ & _ & Hdb1).
  cbn zeta. simpl snd.
  assert (Hne : normalizedEvents db1'
                = normalizedEvents db ++ [mkNormalizedEvent nid n rid])
    by (subst db1'; reflexivity).
  assert (Hex : findNormalizedByHash (normalizedHash n) db1' <> None).
  { unfold findNormalizedByHash. rewrite Hne.
    apply find_is_some_app. simpl. apply String.eqb_refl. }
  destruct (processEvent_existing_normalized db1' ev sim2 n Hn Hex)
    as [Ho Hs].
  repeat split; auto.
  exists n, (mkNormalizedEvent nid n rid). repeat split; auto.
  - unfold withHash. now apply find_none_filter.
  - unfold withHash. rewrite Hs, Hne, filter_app.
    rewrite (find_none_filter _ _ Hf). simpl.
    now rewrite String.eqb_refl.
Qed.

(** ** The failure path *)

Lemma steps3to5_return_outcome db ev h r d :
  steps3to5 db ev h = Return r d ->
  outcome r = outcome_duplicate \/ outcome r = outcome_validation_error.
Proof.
  unfold EventProcessor.steps3to5.
  destruct (upsertRaw h ev db) as [x t].
  destruct (normalize _ _).
  - destruct (findNormalizedByHash _ t); [|discriminate].
    intros H. inversion H. now left.
  - intros H. inversion H. now right.
Qed.

Lemma steps1to5_return_outcome db ev r d :
  steps1to5 db ev = Return r d ->
  outcome r = outcome_duplicate \/ outcome r = outcome_validation_error.
Proof.
  unfold EventProcessor.steps1to5.
  destruct (find _ (rawEvents db)) as [x|].
  - destruct (Status_eqb (status x) normalized).
    + intros H. inversion H. now left.
    + apply steps3to5_return_outcome.
  - apply steps3to5_return_outcome.
Qed.

Lemma recover_unseen db ev message :
  findRawByHash (_generateRawHash ev) db = None ->
  recover db ev message = (Rejected processing_error message None None, db).
Proof. intros H. unfold recover. now rewrite H. Qed.

Lemma upsertRaw_unseen h ev db :
  findRawByHash h db = None ->
  upsertRaw h ev db
  = (mkRawEvent (freshId db) (ev_source ev) (ev_payload ev) processing
       None h,
     mkStore (rawEvents db
              ++ [mkRawEvent (freshId db) (ev_source ev) (ev_payload ev)
                    processing None h])
             (normalizedEvents db)).
Proof. intros H. unfold upsertRaw. now rewrite H. Qed.

(** C10.  When [processEvent] ends in [processing_error] on an input whose
    content hash no RawEvent carries, the RawEvent it inserted (status
    [processing], inside the transaction) is rolled back, the recovery
    lookup finds nothing, and the committed store is the one the call
    started from: no RawEvent with that content hash exists afterwards. *)
Theorem C10_failure_on_unseen_input_leaves_store_unchanged db ev sim :
  findRawByHash (_generateRawHash ev) db = None ->
  outcome (fst (processEvent db ev sim)) = outcome_processing_error ->
  (exists rawEvent tx n,
      steps1to5 db ev = Continue rawEvent tx n
      /\ rawEvents tx = rawEvents db ++ [rawEvent]
      /\ status rawEvent = processing
      /\ contentHash rawEvent = _generateRawHash ev)
  /\ snd (processEvent db ev sim) = db
  /\ findRawByHash (_generateRawHash ev) (snd (processEvent db ev sim))
     = None.
Proof.
  intros Hun Hout.
  unfold EventProcessor.processEvent in *.
  destruct (steps1to5 db ev) as [r d|rawEvent tx n] eqn:E.
  - apply steps1to5_return_outcome in E. simpl in Hout.
    destruct E as [E|E]; rewrite E in Hout; discriminate.
  - pose proof (steps1to5_continue _ _ _ _ _ E) as E3.
    apply steps3to5_continue in E3. destruct E3 as (Hu & _ & _).
    rewrite (upsertRaw_unseen _ _ _ Hun) in Hu. inversion Hu; subst.
    split. { eexists _, _, _. repeat split; reflexivity. }
    revert Hout. unfold EventProcessor.steps6to9.
    destruct sim.
    + rewrite (recover_unseen _ _ _ Hun). simpl. auto.
    + destruct (save _ _).
      * simpl. discriminate.
      * rewrite (recover_unseen _ _ _ Hun). simpl. auto.
Qed.

(** With the fault injected, a new input that normalizes to a new canonical
    event always takes that path. *)
Lemma injected_fault_on_unseen_input db ev n :
  findRawByHash (_generateRawHash ev) db = None ->
  normalize (ev_source ev) (ev_payload ev) = Canonical n ->
  findNormalizedByHash (normalizedHash n) db = None ->
  processEvent db ev true
  = (Rejected processing_error "Simulated database failure" None None, db).
Proof.
  intros Hun Hn Hf.
  unfold EventProcessor.processEvent, EventProcessor.steps1to5.
  assert (Hfind : find (fun r => (contentHash r =? _generateRawHash ev)%string
                          && (Status_eqb (status r) normalized
                              || Status_eqb (status r) processing))
                    (rawEvents db) = None).
  { destruct (find _ (rawEvents db)) as [x|] eqn:E; [|reflexivity].
    apply find_some in E. destruct E as [Hin Hp].
    apply andb_prop in Hp. destruct Hp as [Hp _].
    unfold findRawByHash in Hun.
    pose proof (find_none _ _ Hun _ Hin) as Q. simpl in Q. congruence. }
  rewrite Hfind. unfold EventProcessor.steps3to5.
  rewrite (upsertRaw_unseen _ _ _ Hun), Hn.
  unfold findNormalizedByHash in *. simpl. rewrite Hf.
  unfold EventProcessor.steps6to9.
  apply recover_unseen, Hun.
Qed.

(** ** A lost race on the unique index *)

Lemma interfere_nil db : interfere emptyStore db = db.
Proof. destruct db. unfold interfere. simpl. now rewrite !app_nil_r. Qed.

(** With nothing committed in between, the racing call is the plain one. *)
Lemma processEventRacing_nil db ev sim :
  processEventRacing Date_parse emptyStore db ev sim
  = processEvent db ev sim.
Proof.
  unfold processEventRacing, EventProcessor.processEvent.
  destruct (steps1to5 db ev); [reflexivity|].
  now rewrite !interfere_nil.
Qed.

(** C5 (as the code has it).  When another caller commits a NormalizedEvent
    with the same [normalizedHash] after this call's step 5 lookup, the
    insertion of step 7 fails on the unique index; the single [catch] block
    handles it like any other failure: the transaction is rolled back and
    the outcome is [processing_error] with the storage message, not
    [duplicate].  This call adds no NormalizedEvent. *)
Theorem C5_unique_violation_is_processing_error
  others db ev rawEvent tx n e :
  steps1to5 db ev = Continue rawEvent tx n ->
  In e (normalizedEvents others) ->
  normalizedHash (fields e) = normalizedHash n ->
  let res := processEventRacing Date_parse others db ev false in
  save (mkNormalizedEvent (freshId (interfere others tx)) n
          (raw_id rawEvent)) (interfere others tx)
  = Throw (duplicateKeyMessage (normalizedHash n))
  /\ res = recover (interfere others db) ev
             (duplicateKeyMessage (normalizedHash n))
  /\ fst res = Rejected processing_error
                 (duplicateKeyMessage (normalizedHash n)) None None
  /\ outcome (fst res) = outcome_processing_error
  /\ normalizedEvents (snd res)
     = normalizedEvents db ++ normalizedEvents others.
Proof.
  intros E Hin Hh.
  assert (Hs : save (mkNormalizedEvent (freshId (interfere others tx)) n
                       (raw_id rawEvent)) (interfere others tx)
               = Throw (duplicateKeyMessage (normalizedHash n))).
  { unfold save, findNormalizedByHash. simpl.
    destruct (find _ (normalizedEvents tx ++ normalizedEvents others))
      eqn:F; [reflexivity|].
    exfalso.
    assert (Hin' : In e (normalizedEvents tx ++ normalizedEvents others))
      by (apply in_or_app; now right).
    pose proof (find_none _ _ F _ Hin') as Q. simpl in Q.
    rewrite Hh, String.eqb_refl in Q. discriminate. }
  cbn zeta. split; [exact Hs|].
  assert (R : processEventRacing Date_parse others db ev false
              = recover (interfere others db) ev
                  (duplicateKeyMessage (normalizedHash n))).
  { unfold processEventRacing. rewrite E.
    unfold EventProcessor.steps6to9. now rewrite Hs. }
  rewrite R. unfold recover.
  destruct (findRawByHash _ _); simpl; auto.
Qed.

(** ** Calls on an input no RawEvent records yet *)

Lemma existingRaw_unseen db h :
  findRawByHash h db = None ->
  find (fun r => (contentHash r =? h)%string
                 && (Status_eqb (status r) normalized
                     || Status_eqb (status r) processing))
       (rawEvents db) = None.
Proof.
  intros Hun.
  destruct (find _ (rawEvents db)) as [x|] eqn:E; [|reflexivity].
  apply find_some in E. destruct E as [Hin Hp].
  apply andb_prop in Hp. destruct Hp as [Hp _].
  unfold findRawByHash in Hun.
  pose proof (find_none _ _ Hun _ Hin) as Q. simpl in Q. congruence.
Qed.

Lemma created_committed db ev s m f others :
  f (created db ev processing None) = created db ev s m ->
  findByIdAndUpdate (freshId db) f
    (mkStore (rawEvents db ++ [created db ev processing None]) others)
  = mkStore (rawEvents db ++ [created db ev s m]) others.
Proof.
  intros Hf. unfold findByIdAndUpdate. simpl. f_equal.
  rewrite updateFirst_last; [now rewrite Hf| |reflexivity].
  intros x Hx E. pose proof (freshId_raw _ _ Hx). lia.
Qed.

Lemma processEvent_unseen db ev sim :
  findRawByHash (_generateRawHash ev) db = None ->
  processEvent db ev sim
  = match normalize (ev_source ev) (ev_payload ev) with
    | Invalid error =>
        (Rejected validation_error error (Some (freshId db)) None,
         mkStore (rawEvents db ++ [created db ev failed (Some error)])
                 (normalizedEvents db))
    | Canonical n =>
        match findNormalizedByHash (normalizedHash n) db with
        | Some existing =>
            (Rejected reason_duplicate "Normalized event already exists"
               (Some (freshId db)) (Some (norm_id existing)),
             mkStore (rawEvents db ++ [created db ev duplicate None])
                     (normalizedEvents db))
        | None =>
            if sim then
              (Rejected processing_error "Simulated database failure"
                 None None, db)
            else
              let tx := mkStore
                          (rawEvents db ++ [created db ev processing None])
                          (normalizedEvents db) in
              (Processed "Event processed successfully" (freshId db)
                 (freshId tx) n,
               mkStore (rawEvents db ++ [created db ev normalized None])
                       (normalizedEvents db
                        ++ [mkNormalizedEvent (freshId tx) n (freshId db)]))
        end
    end.
Proof.
  intros Hun.
  unfold EventProcessor.processEvent, EventProcessor.steps1to5.
  rewrite (existingRaw_unseen _ _ Hun).
  unfold EventProcessor.steps3to5.
  rewrite (upsertRaw_unseen _ _ _ Hun).
  destruct (normalize _ _) as [n|error].
  - unfold findNormalizedByHash at 1. simpl normalizedEvents.
    fold (findNormalizedByHash (normalizedHash n) db).
    destruct (findNormalizedByHash (normalizedHash n) db) eqn:F.
    + simpl raw_id. f_equal. now apply created_committed.
    + unfold EventProcessor.steps6to9. destruct sim.
      * now apply recover_unseen.
      * unfold save, findNormalizedByHash in *. simpl. rewrite F.
        simpl. f_equal.
        apply (created_committed db ev normalized None
                 (setStatus normalized)). reflexivity.
  - simpl raw_id. f_equal. now apply created_committed.
Qed.

(** C2 (the code at the specification's example).  With the fault
    injected on the new input [{source: A, payload: {metric: x, amount:
    10}}], no NormalizedEvent is committed, but no RawEvent is left either:
    the insert of step 3 is rolled back with the transaction and the
    recovery write finds nothing to mark [failed].  The retry without the
    fault succeeds and stores exactly one NormalizedEvent. *)
Theorem C2_injected_fault_leaves_no_raw_event :
  let failing := processEvent emptyStore exampleEvent true in
  let retry := processEvent (snd failing) exampleEvent false in
  fst failing
  = Rejected processing_error "Simulated database failure" None None
  /\ normalizedEvents (snd failing) = []
  /\ rawEvents (snd failing) = []
  /\ findRawByHash (_generateRawHash exampleEvent) (snd failing) = None
  /\ outcome (fst retry) = outcome_success
  /\ List.length (normalizedEvents (snd retry)) = 1%nat
  /\ map status (rawEvents (snd retry)) = [normalized].
Proof. vm_compute. repeat split. Qed.

(** ** Semantic duplicates *)

(** The normalized hash is a function of (client_id, metric, amount). *)
Lemma normalize_hash source payload n :
  normalize source payload = Canonical n ->
  normalizedHash n
  = SHA256.digest_hex
      (hashInput (mkFields (client_id n) (metric n) (amount n) None)).
Proof.
  unfold Normalizer.normalize.
  destruct (_ || _ || _); [discriminate|].
  destruct (mapFields _ _ _ _) as [f|]; [|discriminate].
  intros H. inversion H. reflexivity.
Qed.

(** C3.  Two inputs with different content hashes whose normalized forms
    agree on (client_id, metric, amount), whatever their timestamps, both
    new to a store that has no NormalizedEvent with that normalized hash:
    the first is processed, the second is answered [duplicate], exactly one
    NormalizedEvent results, and the second input's RawEvent is stored with
    status [duplicate]. *)
Theorem C3_semantic_duplicate db e1 e2 n1 n2 :
  normalize (ev_source e1) (ev_payload e1) = Canonical n1 ->
  normalize (ev_source e2) (ev_payload e2) = Canonical n2 ->
  client_id n1 = client_id n2 ->
  metric n1 = metric n2 ->
  amount n1 = amount n2 ->
  _generateRawHash e1 <> _generateRawHash e2 ->
  findRawByHash (_generateRawHash e1) db = None ->
  findRawByHash (_generateRawHash e2) db = None ->
  findNormalizedByHash (normalizedHash n1) db = None ->
  let first := processEvent db e1 false in
  let second := processEvent (snd first) e2 false in
  outcome (fst first) = outcome_success
  /\ outcome (fst second) = outcome_duplicate
  /\ (exists e,
        normalizedEvents (snd second) = normalizedEvents db ++ [e]
        /\ fields e = n1
        /\ withHash (normalizedHash n1) (snd second) = [e])
  /\ (exists r,
        findRawByHash (_generateRawHash e2) (snd second) = Some r
        /\ status r = duplicate
        /\ source r = ev_source e2
        /\ payload r = ev_payload e2).
Proof.
  intros N1 N2 Hc Hm Ha Hneq U1 U2 F.
  assert (Hh : normalizedHash n2 = normalizedHash n1).
  { rewrite (normalize_hash _ _ _ N1), (normalize_hash _ _ _ N2).
    now rewrite Hc, Hm, Ha. }
  cbn zeta.
  rewrite (processEvent_unseen db e1 false U1), N1, F.
  cbn zeta. simpl fst. simpl snd.
  set (tx := mkStore (rawEvents db ++ [created db e1 processing None])
                     (normalizedEvents db)).
  set (e := mkNormalizedEvent (freshId tx) n1 (freshId db)).
  set (db1 := mkStore (rawEvents db ++ [created db e1 normalized None])
                      (normalizedEvents db ++ [e])).
  assert (U2' : findRawByHash (_generateRawHash e2) db1 = None).
  { unfold findRawByHash in *. simpl.
    rewrite (find_app_none _ _ _ U2). cbn [find contentHash created].
    destruct (String.eqb_spec (_generateRawHash e1) (_generateRawHash e2));
      [contradiction|reflexivity]. }
  assert (F' : findNormalizedByHash (normalizedHash n2) db1 = Some e).
  { unfold findNormalizedByHash in *. simpl. rewrite Hh.
    rewrite (find_app_none _ _ _ F). simpl.
    now rewrite String.eqb_refl. }
  rewrite (processEvent_unseen db1 e2 false U2'), N2, F'.
  simpl fst. simpl snd.
  repeat split.
  - exists e. repeat split.
    unfold withHash. simpl. rewrite filter_app.
    rewrite (find_none_filter _ _ F). simpl.
    now rewrite String.eqb_refl.
  - exists (created db1 e2 duplicate None). repeat split.
    unfold findRawByHash in *. simpl rawEvents.
    rewrite (find_app_none _ _ _ U2'). cbn [find contentHash created].
    now rewrite String.eqb_refl.
Qed.

(** ** Invalid events *)

Lemma normalize_invalid ev :
  invalidEvent ev = true ->
  normalize (ev_source ev) (ev_payload ev)
  = Invalid "Invalid event: missing source or payload".
Proof.
  unfold invalidEvent, Normalizer.normalize. now intros ->.
Qed.

Lemma steps1to5_not_normalized db ev :
  (forall r, In r (rawEvents db) ->
             contentHash r = _generateRawHash ev -> status r <> normalized) ->
  steps1to5 db ev = steps3to5 db ev (_generateRawHash ev).
Proof.
  intros H. unfold EventProcessor.steps1to5.
  destruct (find _ (rawEvents db)) as [x|] eqn:E; [|reflexivity].
  destruct (Status_eqb (status x) normalized) eqn:S; [|reflexivity].
  exfalso. apply find_some in E. destruct E as [Hin Hp].
  apply andb_prop in Hp. destruct Hp as [Hp _].
  apply String.eqb_eq in Hp. apply Status_eqb_eq in S.
  exact (H x Hin Hp S).
Qed.

(** C6 (as the code has it).  An input the Normalizer rejects as invalid
    (empty source, or a payload that is falsy or not an object) is written
    to storage before it is rejected: the call creates the RawEvent for its
    content hash when none exists, sets its status to [failed] with the
    Normalizer's message, commits, and returns [validation_error].  No
    NormalizedEvent is written. *)
Theorem C6_invalid_event_is_stored_as_failed db ev sim :
  NoDup (map raw_id (rawEvents db)) ->
  invalidEvent ev = true ->
  (forall r, In r (rawEvents db) ->
             contentHash r = _generateRawHash ev -> status r <> normalized) ->
  let res := processEvent db ev sim in
  let message := "Invalid event: missing source or payload" in
  exists r,
    fst res = Rejected validation_error message (Some (raw_id r)) None
    /\ findRawByHash (_generateRawHash ev) (snd res) = Some r
    /\ status r = failed
    /\ errorMessage r = Some message
    /\ normalizedEvents (snd res) = normalizedEvents db
    /\ (findRawByHash (_generateRawHash ev) db = None ->
        rawEvents (snd res) = rawEvents db ++ [r]
        /\ source r = ev_source ev /\ payload r = ev_payload ev).
Proof.
  intros Hnd Hinv Hnn. cbn zeta.
  destruct (findRawByHash (_generateRawHash ev) db) as [r0|] eqn:U.
  - unfold EventProcessor.processEvent.
    rewrite (steps1to5_not_normalized _ _ Hnn).
    unfold EventProcessor.steps3to5, upsertRaw.
    rewrite U, (normalize_invalid _ Hinv). simpl fst. simpl snd.
    exists (setFailed "Invalid event: missing source or payload" r0).
    repeat split; try discriminate.
    unfold findRawByHash in *. simpl.
    now apply updateFirst_found.
  - rewrite (processEvent_unseen db ev sim U), (normalize_invalid _ Hinv).
    simpl fst. simpl snd.
    exists (created db ev failed
              (Some "Invalid event: missing source or payload")).
    repeat split.
    unfold findRawByHash in *. simpl.
    rewrite (find_app_none _ _ _ U). cbn [find contentHash created].
    now rewrite String.eqb_refl.
Qed.

(** ** Stores reached by calls *)

#[local] Abbreviation run := (EventProcessor.run Date_parse).
#[local] Abbreviation settled := (EventProcessor.settled Date_parse).
#[local] Abbreviation consistent := (EventProcessor.consistent Date_parse).

Lemma NoDup_snoc {A} (l : list A) x :
  NoDup l -> ~ In x l -> NoDup (l ++ [x]).
Proof.
  induction l as [|y l IH]; simpl; intros Hnd Hx.
  - constructor; [intros []|constructor].
  - inversion Hnd; subst. constructor.
    + rewrite in_app_iff. simpl. intuition.
    + apply IH; intuition.
Qed.

Lemma updateFirst_same f l r :
  NoDup (map raw_id l) -> In r l -> f r = r ->
  updateFirst (raw_id r) f l = l.
Proof.
  intros Hnd Hin Hf. induction l as [|x l IH]; simpl; [reflexivity|].
  inversion Hnd as [|? ? Hx Hl]; subst.
  destruct (Nat.eqb_spec (raw_id x) (raw_id r)) as [E|E].
  - destruct Hin as [->|Hin]; [now rewrite Hf|].
    exfalso. apply Hx. rewrite E. now apply in_map.
  - destruct Hin as [->|Hin]; [contradiction|].
    f_equal. now apply IH.
Qed.

Lemma store_eta db : mkStore (rawEvents db) (normalizedEvents db) = db.
Proof. now destruct db. Qed.

Lemma settled_grows db db' r :
  (exists extra, normalizedEvents db' = normalizedEvents db ++ extra) ->
  settled db r -> settled db' r.
Proof.
  intros [extra He]. unfold EventProcessor.settled.
  destruct (status r); auto.
  intros (n & Hn & Hf). exists n. split; [exact Hn|].
  unfold findNormalizedByHash in *. rewrite He.
  destruct (find _ (normalizedEvents db)) eqn:F; [|contradiction].
  rewrite (find_app_some _ _ _ _ F). discriminate.
Qed.

Lemma consistent_extend U db ev s m norms :
  consistent U db -> In ev U ->
  findRawByHash (_generateRawHash ev) db = None ->
  (exists extra, norms = normalizedEvents db ++ extra) ->
  settled (mkStore (rawEvents db ++ [created db ev s m]) norms)
          (created db ev s m) ->
  consistent U (mkStore (rawEvents db ++ [created db ev s m]) norms).
Proof.
  intros [Hnd Hall] HU Hun Hex Hset. split.
  - simpl. rewrite map_app. simpl. apply NoDup_snoc; [exact Hnd|].
    intros Hin. apply in_map_iff in Hin. destruct Hin as (x & Hx & Hin).
    pose proof (freshId_raw _ _ Hin). lia.
  - simpl rawEvents. intros r Hin. apply in_app_or in Hin.
    destruct Hin as [Hin|[<-|[]]].
    + destruct (Hall r Hin) as (H1 & H2 & H3 & H4).
      repeat split; auto.
      * unfold findRawByHash in *. simpl. now apply find_app_some.
      * eapply settled_grows; [|exact H4]. exact Hex.
    + assert (Hc : contentOf (created db ev s m) = ev) by now destruct ev.
      rewrite Hc. repeat split; auto.
      unfold findRawByHash in *. simpl.
      rewrite (find_app_none _ _ _ Hun). cbn [find contentHash created].
      now rewrite String.eqb_refl.
Qed.

(** A call on an input the store already records leaves the store as it
    is. *)
Lemma processEvent_seen U db ev sim r0 :
  collisionFree U -> In ev U -> consistent U db ->
  findRawByHash (_generateRawHash ev) db = Some r0 ->
  snd (processEvent db ev sim) = db.
Proof.
  intros HU Hev [Hnd Hall] Hfind.
  assert (Hin0 : In r0 (rawEvents db)) by (now apply find_some in Hfind).
  assert (Hh0 : contentHash r0 = _generateRawHash ev).
  { apply find_some in Hfind. destruct Hfind as [_ E].
    now apply String.eqb_eq in E. }
  destruct (Hall r0 Hin0) as (HinU & Hhash & _ & Hset).
  assert (Hev0 : contentOf r0 = ev).
  { apply HU; auto. now rewrite <- Hhash. }
  assert (Huniq : forall x, In x (rawEvents db) ->
                            contentHash x = _generateRawHash ev -> x = r0).
  { intros x Hx Hhx. destruct (Hall x Hx) as (_ & _ & Hfx & _).
    rewrite Hhx, Hfind in Hfx. congruence. }
  assert (Hnorm : normalize (ev_source ev) (ev_payload ev)
                  = normalize (source r0) (payload r0))
    by (now rewrite <- Hev0).
  unfold EventProcessor.settled in Hset.
  unfold EventProcessor.processEvent.
  destruct (status r0) eqn:S; try contradiction.
  - (* normalized: answered at step 2 *)
    unfold EventProcessor.steps1to5.
    destruct (find _ (rawEvents db)) as [x|] eqn:E.
    + pose proof (find_some _ _ E) as [Hx Hp].
      apply andb_prop in Hp. destruct Hp as [Hp _].
      apply String.eqb_eq in Hp.
      rewrite (Huniq x Hx Hp), S. reflexivity.
    + exfalso. pose proof (find_none _ _ E r0 Hin0) as Q. simpl in Q.
      rewrite Hh0, String.eqb_refl, S in Q. discriminate.
  - (* failed: rejected again, with the same message *)
    destruct Hset as (error & Herr & Hmsg).
    rewrite steps1to5_not_normalized.
    2:{ intros x Hx Hhx. rewrite (Huniq x Hx Hhx), S. discriminate. }
    unfold EventProcessor.steps3to5, upsertRaw.
    rewrite Hfind, Hnorm, Herr. simpl snd. unfold findByIdAndUpdate.
    rewrite updateFirst_same; auto using store_eta.
    destruct r0; simpl in *; now subst.
  - (* duplicate: the NormalizedEvent is still there *)
    destruct Hset as (n & Hn & Hf).
    rewrite steps1to5_not_normalized.
    2:{ intros x Hx Hhx. rewrite (Huniq x Hx Hhx), S. discriminate. }
    unfold EventProcessor.steps3to5, upsertRaw.
    rewrite Hfind, Hnorm, Hn.
    destruct (findNormalizedByHash (normalizedHash n) db); [|contradiction].
    simpl snd. unfold findByIdAndUpdate.
    rewrite updateFirst_same; auto using store_eta.
    destruct r0; simpl in *; now subst.
Qed.

(** One call: the store stays consistent, and its RawEvents are the old
    ones, unchanged, with at most one new document at the end. *)
Lemma processEvent_step U db ev sim :
  collisionFree U -> In ev U -> consistent U db ->
  let db' := snd (processEvent db ev sim) in
  consistent U db'
  /\ (rawEvents db' = rawEvents db
      \/ exists s m,
           rawEvents db' = rawEvents db ++ [created db ev s m]
           /\ final s
           /\ fst (upsertRaw (_generateRawHash ev) ev db)
              = created db ev processing None).
Proof.
  intros HU Hev Hc. cbn zeta.
  destruct (findRawByHash (_generateRawHash ev) db) as [r0|] eqn:Hfind.
  - rewrite (processEvent_seen U db ev sim r0 HU Hev Hc Hfind). auto.
  - assert (Hup : fst (upsertRaw (_generateRawHash ev) ev db)
                  = created db ev processing None)
      by (now rewrite (upsertRaw_unseen _ _ _ Hfind)).
    rewrite (processEvent_unseen db ev sim Hfind).
    assert (Hsrc : forall s m, source (created db ev s m) = ev_source ev)
      by reflexivity.
    destruct (normalize (ev_source ev) (ev_payload ev)) as [n|error] eqn:N.
    + destruct (findNormalizedByHash (normalizedHash n) db) as [e|] eqn:F.
      * simpl snd. split.
        -- apply consistent_extend; auto.
           ++ exists []. now rewrite app_nil_r.
           ++ unfold EventProcessor.settled. simpl. exists n.
              split; [exact N|]. unfold findNormalizedByHash in *.
              simpl. rewrite F. discriminate.
        -- right. exists duplicate, None. unfold final. auto.
      * destruct sim; simpl snd; [auto|]. split.
        -- apply consistent_extend; auto.
           ++ eexists. reflexivity.
           ++ exact I.
        -- right. exists normalized, None. unfold final. auto.
    + simpl snd. split.
      * apply consistent_extend; auto.
        -- exists []. now rewrite app_nil_r.
        -- unfold EventProcessor.settled. simpl. exists error. auto.
      * right. exists failed, (Some error). unfold final. auto.
Qed.



Lemma consistent_empty U : consistent U emptyStore.
Proof. split; [constructor|intros r []]. Qed.


(** ** One call on any store *)

Lemma steps1to5_seen db ev r0 :
  findRawByHash (_generateRawHash ev) db = Some r0 ->
  (exists r, steps1to5 db ev = Return r db)
  \/ (status r0 <> normalized
      /\ steps1to5 db ev = steps3to5 db ev (_generateRawHash ev)).
Proof.
  intros Hfind. unfold EventProcessor.steps1to5.
  destruct (Status_eqb (status r0) normalized) eqn:S0.
  - left. unfold findRawByHash in Hfind.
    rewrite (find_and_first _
               (fun r => Status_eqb (status r) normalized
                         || Status_eqb (status r) processing)
               _ _ Hfind) by (now rewrite S0).
    rewrite S0. eauto.
  - assert (Hst : status r0 <> normalized).
    { intros E. rewrite E in S0. discriminate. }
    destruct (find _ (rawEvents db)) as [x|]; [|auto].
    destruct (Status_eqb (status x) normalized); [left; eauto|auto].
Qed.

(** In one [processEvent] call on a store whose documents have distinct
    ids, no RawEvent is deleted and none changes its id, source, payload or
    content hash; a RawEvent with status [normalized] is left as it is; the
    one RawEvent recording the call's input, when its status is [failed],
    [duplicate], [pending] or [processing], may be given a new status, which
    is [normalized], [failed] or [duplicate]; a RawEvent the call adds is
    committed with one of these three statuses. *)
Lemma processEvent_moves_forward db ev sim :
  NoDup (map raw_id (rawEvents db)) ->
  exists kept added,
    rawEvents (snd (processEvent db ev sim)) = kept ++ added
    /\ Forall2 (moved (_generateRawHash ev)) (rawEvents db) kept
    /\ Forall (fun r => final (status r)
                        /\ contentHash r = _generateRawHash ev) added
    /\ NoDup (map raw_id (kept ++ added)).
Proof.
  intros Hnd.
  assert (Same : forall l, l = rawEvents db ->
            exists kept added,
              l = kept ++ added
              /\ Forall2 (moved (_generateRawHash ev)) (rawEvents db) kept
              /\ Forall (fun r => final (status r)
                          /\ contentHash r = _generateRawHash ev) added
              /\ NoDup (map raw_id (kept ++ added))).
  { intros l ->. exists (rawEvents db), []. rewrite app_nil_r.
    auto using moved_all. }
  assert (New : forall s m, final s ->
            exists kept added,
              rawEvents db ++ [created db ev s m] = kept ++ added
              /\ Forall2 (moved (_generateRawHash ev)) (rawEvents db) kept
              /\ Forall (fun r => final (status r)
                          /\ contentHash r = _generateRawHash ev) added
              /\ NoDup (map raw_id (kept ++ added))).
  { intros s m Hs. exists (rawEvents db), [created db ev s m].
    repeat split; auto using moved_all.
    rewrite map_app. apply NoDup_snoc; [exact Hnd|].
    simpl. intros Hin. apply in_map_iff in Hin.
    destruct Hin as (x & Hx & Hin).
    pose proof (freshId_raw _ _ Hin). lia. }
  destruct (findRawByHash (_generateRawHash ev) db) as [r0|] eqn:Hfind.
  - assert (Upd : forall f, finalizes f -> status r0 <> normalized ->
              exists kept added,
                updateFirst (raw_id r0) f (rawEvents db) = kept ++ added
                /\ Forall2 (moved (_generateRawHash ev)) (rawEvents db) kept
                /\ Forall (fun r => final (status r)
                            /\ contentHash r = _generateRawHash ev) added
                /\ NoDup (map raw_id (kept ++ added))).
    { intros f Hf Hst. exists (updateFirst (raw_id r0) f (rawEvents db)), [].
      rewrite app_nil_r. repeat split; auto.
      - now apply updateFirst_moved.
      - rewrite updateFirst_ids; [exact Hnd|]. intros x. apply Hf. }
    unfold EventProcessor.processEvent.
    destruct (steps1to5_seen db ev r0 Hfind) as [[r ->]|[Hst ->]].
    + now apply Same.
    + unfold EventProcessor.steps3to5, upsertRaw. rewrite Hfind.
      destruct (normalize _ _) as [n|error].
      * destruct (findNormalizedByHash (normalizedHash n) db) eqn:F.
        -- apply Upd; auto. apply setStatus_finalizes. unfold final. auto.
        -- unfold EventProcessor.steps6to9, recover, save.
           cbn [fields]. rewrite Hfind, F.
           destruct sim; simpl snd; simpl rawEvents.
           ++ apply Upd; auto using setFailed_finalizes.
           ++ apply Upd; auto. apply setStatus_finalizes.
              unfold final. auto.
      * apply Upd; auto using setFailed_finalizes.
  - rewrite (processEvent_unseen db ev sim Hfind).
    destruct (normalize _ _) as [n|error].
    + destruct (findNormalizedByHash (normalizedHash n) db).
      * apply New. unfold final. auto.
      * destruct sim; [now apply Same|].
        apply New. unfold final. auto.
    + apply New. unfold final. auto.
Qed.

(** ** Key order *)

Lemma assoc_in_keys {A} k (l : list (string * A)) v :
  assoc k l = Some v -> In k (map fst l).
Proof.
  induction l as [|[k' v'] l IH]; simpl; [discriminate|].
  destruct (String.eqb_spec k k'); [auto|]. intros H. right. now apply IH.
Qed.

Lemma assoc_permutation {A} k (l l' : list (string * A)) :
  Permutation l l' -> NoDup (map fst l) -> assoc k l = assoc k l'.
Proof.
  induction 1 as [|[k1 v1] l l' HP IH|[k1 v1] [k2 v2] l|l l' l'' HP1 IH1 HP2 IH2];
    intros Hnd; simpl in *.
  - reflexivity.
  - inversion Hnd; subst. destruct (k =? k1)%string; auto.
  - inversion Hnd as [|? ? Hx Hl]; subst.
    destruct (String.eqb_spec k k1) as [E1|_];
      destruct (String.eqb_spec k k2) as [E2|_]; auto.
    exfalso. apply Hx. left. congruence.
  - rewrite IH1 by assumption. apply IH2.
    eapply Permutation_NoDup; [|exact Hnd]. now apply Permutation_map.
Qed.

Lemma applyMapping_permutation props props' f entry :
  Permutation props props' -> NoDup (map fst props) ->
  applyMapping Date_parse (JObj props) f entry
  = applyMapping Date_parse (JObj props') f entry.
Proof.
  intros HP Hnd. unfold applyMapping, hasOwn, getOwn.
  destruct entry as [rawField canonicalField].
  rewrite !(assoc_permutation _ _ _ HP Hnd). reflexivity.
Qed.

Lemma mapFields_permutation props props' entries f :
  Permutation props props' -> NoDup (map fst props) ->
  mapFields Date_parse entries (JObj props) f
  = mapFields Date_parse entries (JObj props') f.
Proof.
  intros HP Hnd. revert f.
  induction entries as [|entry entries IH]; intros f; simpl; [reflexivity|].
  rewrite (applyMapping_permutation _ _ _ _ HP Hnd).
  destruct (applyMapping _ _ _ _); simpl; auto.
Qed.

(** C4 (as the code has it).  For two payloads holding the same key-value
    pairs in different key orders, the Normalizer returns the same record,
    so the normalized hash is the same.  The raw content hash is the SHA-256
    of [JSON.stringify({source, payload})], which writes the payload's keys
    in their own order. *)
Theorem C4_normalized_hash_ignores_key_order source props props' :
  NoDup (map fst props) ->
  Permutation props props' ->
  normalize source (JObj props) = normalize source (JObj props')
  /\ (forall n n',
        normalize source (JObj props) = Canonical n ->
        normalize source (JObj props') = Canonical n' ->
        normalizedHash n = normalizedHash n')
  /\ _generateRawHash (mkRawEventData source (JObj props))
     = SHA256.digest_hex
         (stringify (JObj [("source", JStr source);
                           ("payload", JObj props)])).
Proof.
  intros Hnd HP.
  assert (E : normalize source (JObj props) = normalize source (JObj props')).
  { unfold Normalizer.normalize. simpl.
    now rewrite (mapFields_permutation _ _ _ _ HP Hnd). }
  repeat split; auto.
  intros n n' H1 H2. rewrite E, H2 in H1. now inversion H1.
Qed.

(** ** The metric field *)

Lemma mapFields_metric_absent entries payload f f' :
  (forall raw, In (raw, "metric") entries -> hasOwn payload raw = false) ->
  mapFields Date_parse entries payload f = Normal f' ->
  f_metric f' = f_metric f.
Proof.
  revert f. induction entries as [|[raw canonical] entries IH];
    intros f Habs; simpl.
  - intros H. now inversion H.
  - unfold applyMapping.
    destruct (is_some _); [discriminate|].
    destruct (hasOwn payload raw) eqn:Hown.
    + destruct (String.eqb_spec canonical "metric") as [->|_].
      * rewrite (Habs raw) in Hown by now left. discriminate.
      * destruct (canonical =? "amount")%string;
          [|destruct (canonical =? "timestamp")%string]; simpl;
          intros H; apply IH in H; auto; intros r Hr; apply Habs; now right.
    + simpl. intros H. apply IH in H; auto.
      intros r Hr. apply Habs. now right.
Qed.

Lemma metric_sources source raw :
  In (raw, "metric") (mappingEntries source) ->
  raw = "metric" \/ raw = "value".
Proof.
  unfold mappingEntries, fieldMappings. cbn [assoc].
  destruct (source =? "default")%string.
  - simpl. intuition congruence.
  - destruct (existsb (fun k => (k =? source)%string) objectPrototypeKeys);
      simpl; intuition congruence.
Qed.

Lemma mapFields_metric_throws props source v :
  assoc "hasOwnProperty" props = None ->
  assoc "metric" props = Some v ->
  forall m, convert_metric v = Throw m ->
  mapFields Date_parse defaultMappings (JObj props)
    (mkFields source None None None) = Throw m.
Proof.
  intros Hp Hm m Hv. unfold defaultMappings. cbn [mapFields].
  unfold applyMapping at 1. rewrite Hp. unfold hasOwn, getOwn.
  rewrite Hm. cbn [is_some String.eqb Ascii.eqb Bool.eqb].
  rewrite Hv. reflexivity.
Qed.

Lemma mapFields_metric_converted props source v m :
  assoc "hasOwnProperty" props = None ->
  assoc "metric" props = Some v ->
  assoc "value" props = None ->
  convert_metric v = Normal m ->
  exists f,
    mapFields Date_parse defaultMappings (JObj props)
      (mkFields source None None None) = Normal f
    /\ f_metric f = Some m.
Proof.
  intros Hp Hm Hval Hv. unfold defaultMappings. cbn [mapFields].
  unfold applyMapping. rewrite Hp. unfold hasOwn, getOwn.
  rewrite Hm, Hval. cbn [is_some String.eqb Ascii.eqb Bool.eqb].
  rewrite Hv. cbn [bind f_client_id f_metric f_amount f_timestamp].
  destruct (assoc "amount" props), (assoc "timestamp" props),
    (assoc "price" props), (assoc "date" props), (assoc "time" props);
    cbn [is_some bind f_client_id f_metric f_amount f_timestamp];
    eexists; split; reflexivity.
Qed.

(** C8 (as the code has it).  The metric converter returns a string
    unchanged, the empty string for null, false and 0, and [String(value)]
    for any other value.  It returns a string for every value but one that
    [String] refuses (an object with an own [toString] field, at the top or
    as an element of an array), where it throws.  In [normalize] the
    converter only runs for a field the payload has: with no [metric] and no
    [value] field the metric stays null (absent); with a [metric] field
    (and no [value] field, which would override it) [normalize] returns the
    record with the converted value as metric, so a null metric gives the
    empty string; with a [metric] field that [String] refuses, [normalize]
    returns the error of its [catch] block. *)
Theorem C8_metric_in_normalized_record source payload :
  (forall v, if stringable v
             then exists s, convert_metric v = Normal s
             else convert_metric v
                  = Throw "Cannot convert object to primitive value")
  /\ (forall s, convert_metric (JStr s) = Normal s)
  /\ (forall v, truthy v = false -> convert_metric v = Normal "")
  /\ (forall v, truthy v = true ->
                convert_metric v
                = match v with JStr s => Normal s | _ => ToString v end)
  /\ (forall n,
        normalize source payload = Canonical n ->
        (hasOwn payload "metric" = false -> hasOwn payload "value" = false ->
         metric n = None)
        /\ (mappingEntries source = defaultMappings ->
            hasOwn payload "metric" = true ->
            hasOwn payload "value" = false ->
            exists m, convert_metric (getOwn payload "metric") = Normal m
                      /\ metric n = Some m))
  /\ (forall props v,
        payload = JObj props -> source <> "" ->
        assoc "hasOwnProperty" props = None ->
        mappingEntries source = defaultMappings ->
        assoc "metric" props = Some v ->
        if stringable v
        then assoc "value" props = None ->
             exists n m, normalize source payload = Canonical n
                         /\ convert_metric v = Normal m
                         /\ metric n = Some m
        else normalize source payload
             = Invalid
                 "Normalization error: Cannot convert object to primitive value").
Proof.
  split; [apply convert_metric_stringable|].
  split; [reflexivity|].
  split.
  { intros v Hv. unfold convert_metric. rewrite Hv.
    destruct v; try reflexivity.
    destruct s; [reflexivity|discriminate]. }
  split.
  { intros v Hv. unfold convert_metric. rewrite Hv. reflexivity. }
  split.
  - intros n Hn. split.
    + intros Hm Hv. revert Hn. unfold Normalizer.normalize.
      destruct (_ || _ || _); [discriminate|].
      destruct (mapFields _ _ _ _) as [f|] eqn:M; [|discriminate].
      intros H. inversion H; subst; simpl.
      apply mapFields_metric_absent in M; [exact M|].
      intros raw Hraw. apply metric_sources in Hraw.
      destruct Hraw as [->| ->]; assumption.
    + intros Ht Hm Hv. revert Hn. unfold Normalizer.normalize.
      destruct (_ || _ || _); [discriminate|].
      destruct (mapFields _ _ _ _) as [f|] eqn:M; [|discriminate].
      intros H. inversion H; subst; simpl. clear H.
      revert M. rewrite Ht. unfold defaultMappings. cbn [mapFields].
      unfold applyMapping.
      destruct (is_some _); [discriminate|].
      rewrite Hm, Hv. cbn [String.eqb Ascii.eqb Bool.eqb bind].
      destruct (convert_metric (getOwn payload "metric")) as [m|];
        [|discriminate].
      cbn [bind f_client_id f_metric f_amount f_timestamp].
      destruct (hasOwn payload "amount"), (hasOwn payload "timestamp"),
        (hasOwn payload "price"), (hasOwn payload "date"),
        (hasOwn payload "time");
        cbn [bind f_client_id f_metric f_amount f_timestamp];
        intros H; inversion H; exists m; auto.
  - intros props v -> Hs Hp Ht Hm.
    assert (Hguard : (source =? "")%string || negb (truthy (JObj props))
                     || negb (typeof_object (JObj props)) = false).
    { apply String.eqb_neq in Hs. now rewrite Hs. }
    pose proof (convert_metric_stringable v) as Hc.
    unfold Normalizer.normalize. rewrite Hguard, Ht.
    destruct (stringable v).
    + intros Hval. destruct Hc as [m Hc].
      destruct (mapFields_metric_converted props source v m Hp Hm Hval Hc)
        as (f & -> & Hf).
      eexists. exists m. split; [reflexivity|]. split; [exact Hc|exact Hf].
    + now rewrite (mapFields_metric_throws props source v Hp Hm _ Hc).
Qed.

End Processor.

(** C4: the raw content hash is not independent of key order: the two
    orders of the example payload have different hashes. *)
Lemma C4_raw_hash_depends_on_key_order :
  ev_source exampleEvent = ev_source exampleEventReordered
  /\ (exists props props',
        ev_payload exampleEvent = JObj props
        /\ ev_payload exampleEventReordered = JObj props'
        /\ Permutation props props')
  /\ _generateRawHash exampleEvent
     = "167350986906296ac345fe2b2367de199f74dfbbdd3d519591e8f2a8a12404f5"
  /\ _generateRawHash exampleEventReordered
     = "abe9013763c60c8c4e848967e16c2c727da4d8c762f2f19811445c40ae199cc2"
  /\ _generateRawHash exampleEvent
     <> _generateRawHash exampleEventReordered.
Proof.
  split; [reflexivity|]. split.
  - eexists _, _. repeat split. apply perm_swap.
  - vm_compute. repeat split. discriminate.
Qed.

(** C8: where the payload has no metric field, the normalized metric is
    null, not the empty string. *)
Lemma C8_absent_metric_stays_null :
  exists n,
    normalize Host.Date_parse "A" (JObj [("amount", JNum 5)]) = Canonical n
    /\ amount n = Some 5%Q
    /\ metric n = None
    /\ metric n <> Some EmptyString.
Proof.
  eexists. split; [vm_compute; reflexivity|].
  simpl. repeat split. discriminate.
Qed.

(** ** Aggregation *)

Import Aggregates.

(** C9.  For the NormalizedEvents (A, 10), (A, 30), (B, 5), whatever their
    other fields: grouped by client there are two groups, A with count 2,
    total 40, average 20, min 10, max 30 and B with count 1, total 5,
    average 5, min 5, max 5; ungrouped there is one group with count 3 and
    total 45 (average 15, min 5, max 30); the by-client route lists A
    (count 2, total 40, average 20) before B (count 1, total 5,
    average 5). *)
Theorem C9_aggregation_example raws i1 i2 i3 m1 m2 m3 t1 t2 t3 h1 h2 h3
  r1 r2 r3 :
  let db := mkStore raws [ eventOf i1 "A" 10 m1 t1 h1 r1;
                           eventOf i2 "A" 30 m2 t2 h2 r2;
                           eventOf i3 "B" 5 m3 t3 h3 r3 ] in
  let byClient := getAggregates db None None None (Some "client") in
  let ungrouped := getAggregates db None None None None in
  List.length byClient = 2%nat
  /\ summaryOf "A" byClient = Some ("A", 2%nat, 40%Q, 20%Q, 10%Q, 30%Q)
  /\ summaryOf "B" byClient = Some ("B", 1%nat, 5%Q, 5%Q, 5%Q, 5%Q)
  /\ map figures ungrouped = [ ("all", 3%nat, 45%Q, 15%Q, 5%Q, 30%Q) ]
  /\ map (fun c => (ct_client_id c, ct_count c, ct_totalAmount c,
                    ct_averageAmount c))
         (getAggregatesByClient db None None)
     = [ ("A", 2%nat, 40%Q, 20%Q); ("B", 1%nat, 5%Q, 5%Q) ].
Proof. vm_compute. repeat split. Qed.

(** ** The theorems at concrete inputs *)

Lemma C1_identical_input_twice_witness :
  outcome (fst (processEvent Host.Date_parse emptyStore exampleEvent false))
  = outcome_success
  /\ outcome
       (fst (processEvent Host.Date_parse
               (snd (processEvent Host.Date_parse emptyStore exampleEvent
                       false))
               exampleEvent false))
     = outcome_duplicate.
Proof.
  assert (H : outcome (fst (processEvent Host.Date_parse emptyStore
                              exampleEvent false)) = outcome_success)
    by (vm_compute; reflexivity).
  split; [exact H|].
  exact (proj1 (C1_identical_input_twice Host.Date_parse emptyStore
                  exampleEvent false false H)).
Defined.

Lemma C3_semantic_duplicate_witness :
  _generateRawHash exampleEvent <> _generateRawHash exampleEventRenamed
  /\ outcome
       (fst (processEvent Host.Date_parse
               (snd (processEvent Host.Date_parse emptyStore exampleEvent
                       false))
               exampleEventRenamed false))
     = outcome_duplicate.
Proof.
  assert (Hneq : _generateRawHash exampleEvent
                 <> _generateRawHash exampleEventRenamed)
    by (vm_compute; discriminate).
  split; [exact Hneq|].
  eapply (C3_semantic_duplicate Host.Date_parse emptyStore exampleEvent
            exampleEventRenamed).
  - vm_compute. reflexivity.
  - vm_compute. reflexivity.
  - reflexivity.
  - reflexivity.
  - reflexivity.
  - exact Hneq.
  - reflexivity.
  - reflexivity.
  - reflexivity.
Defined.

Lemma C4_normalized_hash_ignores_key_order_witness :
  normalize Host.Date_parse "A"
    (JObj [("metric", JStr "x"); ("amount", JStr "10")])
  = normalize Host.Date_parse "A"
      (JObj [("amount", JStr "10"); ("metric", JStr "x")]).
Proof.
  apply (C4_normalized_hash_ignores_key_order Host.Date_parse "A"
           [("metric", JStr "x"); ("amount", JStr "10")]
           [("amount", JStr "10"); ("metric", JStr "x")]).
  - repeat constructor; simpl; intuition discriminate.
  - apply perm_swap.
Defined.

Lemma C5_unique_violation_witness :
  outcome (fst (processEventRacing Host.Date_parse raceWinner emptyStore
                  exampleEvent false))
  = outcome_processing_error.
Proof.
  eapply (C5_unique_violation_is_processing_error Host.Date_parse
            raceWinner emptyStore exampleEvent).
  - vm_compute. reflexivity.
  - left. reflexivity.
  - vm_compute. reflexivity.
Defined.

Lemma C6_invalid_event_witness :
  exists r,
    findRawByHash (_generateRawHash invalidExample)
      (snd (processEvent Host.Date_parse emptyStore invalidExample false))
    = Some r
    /\ status r = failed.
Proof.
  destruct (C6_invalid_event_is_stored_as_failed Host.Date_parse emptyStore
              invalidExample false)
    as (r & _ & Hfind & Hstatus & _).
  - constructor.
  - reflexivity.
  - intros r [].
  - exists r. split; [exact Hfind|exact Hstatus].
Defined.


Lemma C8_metric_in_normalized_record_witness :
  (exists n,
     Normalizer.normalize Host.Date_parse "A" (JObj [("amount", JNum 5)])
     = Canonical n
     /\ metric n = None)
  /\ (exists n,
        Normalizer.normalize Host.Date_parse "A" (JObj [("metric", JNull)])
        = Canonical n
        /\ metric n = Some EmptyString)
  /\ Normalizer.normalize Host.Date_parse "A"
       (JObj [("metric", JObj [("toString", JNum 1)])])
     = Invalid
         "Normalization error: Cannot convert object to primitive value".
Proof.
  split; [|split].
  - eexists. split.
    + vm_compute. reflexivity.
    + eapply (proj1 (proj1 (proj2 (proj2 (proj2 (proj2
                (C8_metric_in_normalized_record Host.Date_parse "A"
                   (JObj [("amount", JNum 5)])))))) _ _));
        reflexivity.
    Unshelve. vm_compute. reflexivity.
  - destruct (proj2 (proj2 (proj2 (proj2 (proj2
                (C8_metric_in_normalized_record Host.Date_parse "A"
                   (JObj [("metric", JNull)]))))))
                [("metric", JNull)] JNull eq_refl)
      as (n & m & Hn & Hm & Hmetric); try reflexivity.
    + discriminate.
    + exists n. split; [exact Hn|]. rewrite Hmetric.
      simpl in Hm. now inversion Hm.
  - apply (proj2 (proj2 (proj2 (proj2 (proj2
             (C8_metric_in_normalized_record Host.Date_parse "A"
                (JObj [("metric", JObj [("toString", JNum 1)])]))))))
             [("metric", JObj [("toString", JNum 1)])]
             (JObj [("toString", JNum 1)]) eq_refl);
      try reflexivity.
    discriminate.
Defined.

Lemma C10_failure_on_unseen_input_witness :
  findRawByHash (_generateRawHash exampleEvent) emptyStore = None
  /\ outcome (fst (processEvent Host.Date_parse emptyStore exampleEvent true))
     = outcome_processing_error
  /\ snd (processEvent Host.Date_parse emptyStore exampleEvent true)
     = emptyStore.
Proof.
  assert (H : outcome (fst (processEvent Host.Date_parse emptyStore
                              exampleEvent true))
              = outcome_processing_error) by (vm_compute; reflexivity).
  split; [reflexivity|]. split; [exact H|].
  exact (proj1 (proj2 (C10_failure_on_unseen_input_leaves_store_unchanged
                         Host.Date_parse emptyStore exampleEvent true
                         eq_refl H))).
Defined.

(** ** Counterexamples *)

(** C5: the call that loses the race on the unique index answers
    [processing_error], with the storage message, not [duplicate]. *)
Lemma C5_lost_race_is_not_duplicate :
  map (fun e => normalizedHash (fields e)) (normalizedEvents raceWinner)
  = ["9d33bdc3f0a0119b75d0de6c82c81fe776b4b4e355b8f754201a2c3429a24c91"]
  /\ fst (processEventRacing Host.Date_parse raceWinner emptyStore
            exampleEvent false)
     = Rejected processing_error
         (duplicateKeyMessage
            "9d33bdc3f0a0119b75d0de6c82c81fe776b4b4e355b8f754201a2c3429a24c91")
         None None
  /\ outcome (fst (processEventRacing Host.Date_parse raceWinner emptyStore
                     exampleEvent false))
     <> outcome_duplicate.
Proof. vm_compute. repeat split; discriminate. Qed.

(** C6: a payload that is not an object is rejected as invalid, yet the
    call has created a RawEvent for it, with status [failed].  The route
    lets such a payload through to [processEvent]. *)
Lemma C6_invalid_event_creates_raw_event :
  invalidEvent invalidExample = true
  /\ findRawByHash (_generateRawHash invalidExample) emptyStore = None
  /\ processEvent Host.Date_parse emptyStore invalidExample false
     = (Rejected validation_error "Invalid event: missing source or payload"
          (Some 1%nat) None,
        mkStore
          [created emptyStore invalidExample failed
             (Some "Invalid event: missing source or payload")] [])
  /\ Routes.postEvents Host.Date_parse emptyStore (Some "A")
       (Some (JStr "oops")) None
     = (400%nat,
        Some (Rejected validation_error
                "Invalid event: missing source or payload" (Some 1%nat) None),
        mkStore
          [created emptyStore invalidExample failed
             (Some "Invalid event: missing source or payload")] []).
Proof. vm_compute. repeat split. Qed.

(** A call that loses the race against a concurrent call on the same input
    finds, in its recovery write, the RawEvent the winner committed as
    [normalized], and marks it [failed]. *)
Example lost_race_marks_winner_failed :
  map (fun r => (raw_id r, status r)) (rawEvents sameInputWinner)
  = [(1%nat, normalized)]
  /\ map (fun r => (raw_id r, status r)) (rawEvents afterLostRace)
     = [(1%nat, failed)]
  /\ List.length (normalizedEvents afterLostRace) = 1%nat.
Proof. vm_compute. repeat split. Qed.

(** * Further properties of the code *)

(** ** The Normalizer *)

Lemma ToString_throw v :
  forall m, ToString v = Throw m ->
            m = "Cannot convert object to primitive value".
Proof.
  induction v as [| b | q | s | xs IHxs | props] using JValue_array_ind;
    intros m; simpl.
  - discriminate.
  - destruct b; discriminate.
  - discriminate.
  - discriminate.
  - match goal with
    | |- ?join true xs = _ -> _ =>
        cut (forall first, join first xs = Throw m ->
                           m = "Cannot convert object to primitive value");
        [intros C; apply C|]
    end.
    induction IHxs as [|x xs Hx _ IH]; intros first; simpl; [discriminate|].
    destruct (match x with JNull => Normal EmptyString | _ => ToString x end)
      as [sx|mx] eqn:Ex; simpl.
    + match goal with
      | |- context [bind ?c _] => destruct c as [sr|mr] eqn:Er
      end; simpl; [discriminate|].
      intros H. inversion H; subst. exact (IH false Er).
    + intros H. inversion H; subst.
      destruct x; try discriminate; apply (Hx _ Ex).
  - destruct (is_some _); [|discriminate].
    intros H. now inversion H.
Qed.

Section NormalizerProperties.

Variable Date_parse : string -> option Z.

#[local] Abbreviation normalize := (Normalizer.normalize Date_parse).
#[local] Abbreviation mapFields := (Normalizer.mapFields Date_parse).
#[local] Abbreviation applyMapping := (Normalizer.applyMapping Date_parse).
#[local] Abbreviation convert_timestamp :=
  (Normalizer.convert_timestamp Date_parse).

Lemma applyMapping_client_id payload f entry f' :
  applyMapping payload f entry = Normal f' ->
  f_client_id f' = f_client_id f.
Proof.
  unfold Normalizer.applyMapping. destruct entry as [raw canonical].
  destruct (is_some _); [discriminate|].
  destruct (hasOwn payload raw); [|intros H; now inversion H].
  destruct (canonical =? "metric")%string.
  - destruct (convert_metric _); simpl; [|discriminate].
    intros H. now inversion H.
  - destruct (canonical =? "amount")%string;
      [|destruct (canonical =? "timestamp")%string];
      intros H; now inversion H.
Qed.

Lemma mapFields_client_id entries payload f f' :
  mapFields entries payload f = Normal f' ->
  f_client_id f' = f_client_id f.
Proof.
  revert f. induction entries as [|entry entries IH]; intros f; simpl.
  - intros H. now inversion H.
  - destruct (applyMapping payload f entry) as [g|] eqn:E; simpl;
      [|discriminate].
    intros H. apply IH in H. apply applyMapping_client_id in E. congruence.
Qed.

(** X1.  A normalized record carries the source as its [client_id], and
    the source is not empty. *)
Theorem normalize_copies_source source payload n :
  normalize source payload = Canonical n ->
  client_id n = source /\ source <> "".
Proof.
  unfold Normalizer.normalize.
  destruct (String.eqb_spec source "") as [->|Hs]; [discriminate|].
  simpl orb. destruct (_ || _); [discriminate|].
  destruct (mapFields _ _ _) as [f|] eqn:M; [|discriminate].
  intros H. inversion H; subst. simpl.
  apply mapFields_client_id in M. auto.
Qed.

Lemma applyMapping_throw payload f entry m :
  applyMapping payload f entry = Throw m ->
  m = "payload.hasOwnProperty is not a function"
  \/ m = "Cannot convert object to primitive value".
Proof.
  unfold Normalizer.applyMapping. destruct entry as [raw canonical].
  destruct (is_some _); [intros H; inversion H; auto|].
  destruct (hasOwn payload raw); [|discriminate].
  destruct (canonical =? "metric")%string.
  - destruct (convert_metric _) as [x|mx] eqn:E; simpl; [discriminate|].
    intros H. inversion H; subst. right.
    unfold convert_metric in E.
    destruct (getOwn payload raw) eqn:G; try discriminate;
      destruct (truthy _); try discriminate;
      now apply ToString_throw in E.
  - destruct (canonical =? "amount")%string;
      [|destruct (canonical =? "timestamp")%string]; discriminate.
Qed.

Lemma mapFields_throw entries payload f m :
  mapFields entries payload f = Throw m ->
  m = "payload.hasOwnProperty is not a function"
  \/ m = "Cannot convert object to primitive value".
Proof.
  revert f. induction entries as [|entry entries IH]; intros f; simpl;
    [discriminate|].
  destruct (applyMapping payload f entry) as [g|mx] eqn:E; simpl.
  - apply IH.
  - intros H. inversion H; subst. now apply applyMapping_throw in E.
Qed.

(** X2.  [normalize] reports one of three errors and no other: the invalid
    event message of its guard, or a normalization error that is either the
    [TypeError] of calling [payload.hasOwnProperty] when the payload has a
    field of that name, or the [TypeError] of converting to a string a
    metric that holds an object with a [toString] field. *)
Theorem normalize_error_messages source payload error :
  normalize source payload = Invalid error ->
  error = "Invalid event: missing source or payload"
  \/ error
     = "Normalization error: payload.hasOwnProperty is not a function"
  \/ error
     = "Normalization error: Cannot convert object to primitive value".
Proof.
  unfold Normalizer.normalize.
  destruct (_ || _ || _); [intros H; inversion H; auto|].
  destruct (mapFields _ _ _) as [f|m] eqn:M; [discriminate|].
  intros H. inversion H; subst.
  apply mapFields_throw in M. destruct M as [->| ->]; auto.
Qed.

(** X3.  A payload object with a field named [hasOwnProperty] is rejected,
    whatever else it holds, for every client that uses the default
    mappings: the call [payload.hasOwnProperty(...)] of the first loop
    iteration throws. *)
Theorem normalize_rejects_hasOwnProperty_field source props :
  source <> "" ->
  mappingEntries source = defaultMappings ->
  assoc "hasOwnProperty" props <> None ->
  normalize source (JObj props)
  = Invalid "Normalization error: payload.hasOwnProperty is not a function".
Proof.
  intros Hs Ht Hp. unfold Normalizer.normalize.
  destruct (String.eqb_spec source "") as [E|_]; [contradiction|].
  simpl. rewrite Ht. unfold defaultMappings. cbn [Normalizer.mapFields].
  unfold Normalizer.applyMapping at 1.
  destruct (assoc "hasOwnProperty" props); [|contradiction].
  reflexivity.
Qed.

Lemma mapFields_nothing_mapped entries payload f :
  match payload with
  | JObj props => assoc "hasOwnProperty" props = None
  | _ => True
  end ->
  (forall raw canonical, In (raw, canonical) entries ->
                         hasOwn payload raw = false) ->
  mapFields entries payload f = Normal f.
Proof.
  intros Hp. induction entries as [|[raw canonical] entries IH];
    intros Hno; simpl; [reflexivity|].
  unfold Normalizer.applyMapping.
  assert (Hk : is_some match payload with
                       | JObj props => assoc "hasOwnProperty" props
                       | _ => None
                       end = false).
  { destruct payload; try reflexivity. now rewrite Hp. }
  rewrite Hk, (Hno raw canonical) by now left.
  simpl. apply IH. intros r c H. apply (Hno r c). now right.
Qed.

Lemma mappingEntries_default source raw canonical :
  In (raw, canonical) (mappingEntries source) ->
  In (raw, canonical) defaultMappings.
Proof.
  unfold mappingEntries, fieldMappings. cbn [assoc].
  destruct (source =? "default")%string; [trivial|].
  destruct (existsb (fun k => (k =? source)%string) objectPrototypeKeys);
    [intros []|trivial].
Qed.

(** X4.  A payload object that holds none of the mapped field names (and no
    field named [hasOwnProperty]) normalizes without error to a record with
    the source as client and metric, amount and timestamp all null. *)
Theorem normalize_unrecognized_fields_only source props :
  source <> "" ->
  assoc "hasOwnProperty" props = None ->
  (forall raw canonical, In (raw, canonical) defaultMappings ->
                         assoc raw props = None) ->
  normalize source (JObj props)
  = Canonical
      (mkNormalized source None None None
         (SHA256.digest_hex (hashInput (mkFields source None None None)))).
Proof.
  intros Hs Hp Hno. unfold Normalizer.normalize.
  destruct (String.eqb_spec source "") as [E|_]; [contradiction|].
  simpl orb. cbv iota.
  rewrite mapFields_nothing_mapped; [reflexivity|exact Hp|].
  intros raw canonical Hin. apply mappingEntries_default in Hin.
  simpl. now rewrite (Hno raw canonical Hin).
Qed.

(** What the loop over the default mappings leaves in each field: the
    converted value of the last mapped name the payload has. *)
Lemma mapFields_default payload source f :
  mapFields defaultMappings payload (mkFields source None None None)
  = Normal f ->
  f_amount f = match firstOwn payload ["price"; "amount"] with
               | Some v => convert_amount v
               | None => None
               end
  /\ f_timestamp f = match firstOwn payload ["time"; "date"; "timestamp"] with
                     | Some v => convert_timestamp v
                     | None => None
                     end
  /\ match firstOwn payload ["value"; "metric"] with
     | Some v => exists m, convert_metric v = Normal m /\ f_metric f = Some m
     | None => f_metric f = None
     end.
Proof.
  unfold defaultMappings. cbn [Normalizer.mapFields firstOwn].
  unfold Normalizer.applyMapping.
  destruct (is_some _); [discriminate|].
  destruct (hasOwn payload "metric");
    cbn [String.eqb Ascii.eqb Bool.eqb bind];
    [destruct (convert_metric (getOwn payload "metric")) as [m1|] eqn:E1;
     [|discriminate]|];
    cbn [bind f_client_id f_metric f_amount f_timestamp];
    destruct (hasOwn payload "amount"), (hasOwn payload "timestamp");
    cbn [bind f_client_id f_metric f_amount f_timestamp];
    (destruct (hasOwn payload "value");
     cbn [bind f_client_id f_metric f_amount f_timestamp];
     [destruct (convert_metric (getOwn payload "value")) as [m2|] eqn:E2;
      [|discriminate]|]);
    cbn [bind f_client_id f_metric f_amount f_timestamp];
    destruct (hasOwn payload "price"), (hasOwn payload "date"),
      (hasOwn payload "time");
    cbn [bind f_client_id f_metric f_amount f_timestamp];
    intros H; inversion H; cbn [f_metric f_amount f_timestamp];
    (split; [reflexivity|split; [reflexivity|]]);
    first [ reflexivity
          | eexists; split; [first [eassumption|reflexivity]|reflexivity] ].
Qed.

Lemma normalize_default source payload n :
  normalize source payload = Canonical n ->
  mappingEntries source = defaultMappings ->
  exists f,
    mapFields defaultMappings payload (mkFields source None None None)
    = Normal f
    /\ metric n = f_metric f /\ amount n = f_amount f
    /\ timestamp n = f_timestamp f.
Proof.
  unfold Normalizer.normalize. intros H Ht.
  destruct (_ || _ || _); [discriminate|]. rewrite Ht in H.
  destruct (mapFields _ _ _) as [f|]; [|discriminate].
  inversion H; subst. eauto.
Qed.

(** X5.  For a client on the default mappings, [price] overrides [amount]:
    the normalized amount is the converted [price] when the payload has a
    [price] field, else the converted [amount], else null. *)
Theorem normalize_price_overrides_amount source payload n :
  normalize source payload = Canonical n ->
  mappingEntries source = defaultMappings ->
  amount n = match firstOwn payload ["price"; "amount"] with
             | Some v => convert_amount v
             | None => None
             end.
Proof.
  intros H Ht. destruct (normalize_default _ _ _ H Ht) as (f & M & _ & -> & _).
  now apply mapFields_default in M.
Qed.

(** X6.  For a client on the default mappings, the timestamp comes from
    [time] if the payload has it, else from [date], else from
    [timestamp]; a value that does not convert gives null even when an
    overridden field would have converted. *)
Theorem normalize_time_overrides_date source payload n :
  normalize source payload = Canonical n ->
  mappingEntries source = defaultMappings ->
  timestamp n = match firstOwn payload ["time"; "date"; "timestamp"] with
                | Some v => convert_timestamp v
                | None => None
                end.
Proof.
  intros H Ht. destruct (normalize_default _ _ _ H Ht) as (f & M & _ & _ & ->).
  now apply mapFields_default in M.
Qed.

(** X7.  For a client on the default mappings, [value] overrides [metric]:
    when the payload has a [value] field the normalized metric is its
    converted value, whatever the [metric] field holds. *)
Theorem normalize_value_overrides_metric source payload n :
  normalize source payload = Canonical n ->
  mappingEntries source = defaultMappings ->
  hasOwn payload "value" = true ->
  exists m, convert_metric (getOwn payload "value") = Normal m
            /\ metric n = Some m.
Proof.
  intros H Ht Hv. destruct (normalize_default _ _ _ H Ht) as (f & M & -> & _).
  apply mapFields_default in M. destruct M as (_ & _ & M).
  cbn [firstOwn] in M. now rewrite Hv in M.
Qed.

(** X8.  A client whose name is a property of [Object.prototype]
    ([constructor], [toString], [__proto__], ...) gets no field mapped:
    [this.fieldMappings[source]] finds the inherited property, which has no
    entries, so every object or array payload normalizes to a record with
    metric, amount and timestamp null. *)
Theorem normalize_prototype_named_source source payload :
  In source objectPrototypeKeys ->
  truthy payload = true -> typeof_object payload = true ->
  normalize source payload
  = Canonical
      (mkNormalized source None None None
         (SHA256.digest_hex (hashInput (mkFields source None None None)))).
Proof.
  intros Hin Ht Ho. unfold Normalizer.normalize. rewrite Ht, Ho.
  simpl in Hin.
  repeat (destruct Hin as [<-|Hin]; [reflexivity|]). destruct Hin.
Qed.

(** X9.  The normalized hash does not depend on the timestamp: two
    normalized records that agree on client, metric and amount have the
    same [normalizedHash]. *)
Theorem normalizedHash_ignores_timestamp source payload n source' payload' n' :
  normalize source payload = Canonical n ->
  normalize source' payload' = Canonical n' ->
  client_id n = client_id n' -> metric n = metric n' ->
  amount n = amount n' ->
  normalizedHash n = normalizedHash n'.
Proof.
  unfold Normalizer.normalize.
  destruct (_ || _ || _); [discriminate|].
  destruct (mapFields _ payload _) as [f|]; [|discriminate].
  destruct (_ || _ || _); [discriminate|].
  destruct (mapFields _ payload' _) as [f'|]; [|discriminate].
  intros H H'. inversion H; inversion H'; subst. simpl.
  intros Hc Hm Ha. unfold hashInput. now rewrite Hc, Hm, Ha.
Qed.

Lemma is_digit_not_sep c sep :
  is_digit c = true -> is_digit sep = false -> Ascii.eqb sep c = false.
Proof.
  intros Hc Hs. destruct (Ascii.eqb_spec sep c) as [->|]; congruence.
Qed.

Lemma take_digits_app n ds rest :
  all_digits ds = true -> String.length ds = n ->
  take_digits n (ds ++ rest)%string = Some (ds, rest).
Proof.
  revert n. induction ds as [|c ds IH]; intros n Hd Hl; simpl in *.
  - subst. reflexivity.
  - apply andb_prop in Hd. destruct Hd as [Hc Hd]. subst n. simpl.
    rewrite Hc, (IH (String.length ds)); auto.
Qed.

Lemma match_ymd_sep sep y m d rest :
  all_digits y = true -> String.length y = 4%nat ->
  all_digits m = true -> String.length m = 2%nat ->
  all_digits d = true -> String.length d = 2%nat ->
  match_ymd (Some sep) (y ++ String sep (m ++ String sep (d ++ rest)))%string
  = Some (y, m, d).
Proof.
  intros. unfold match_ymd.
  rewrite (take_digits_app 4 y) by assumption.
  cbn [expect]. rewrite Ascii.eqb_refl.
  rewrite (take_digits_app 2 m) by assumption.
  cbn [expect]. rewrite Ascii.eqb_refl.
  now rewrite (take_digits_app 2 d) by assumption.
Qed.

Lemma match_ymd_plain y m d rest :
  all_digits y = true -> String.length y = 4%nat ->
  all_digits m = true -> String.length m = 2%nat ->
  all_digits d = true -> String.length d = 2%nat ->
  match_ymd None (y ++ m ++ d ++ rest)%string = Some (y, m, d).
Proof.
  intros. unfold match_ymd.
  rewrite (take_digits_app 4 y) by assumption. cbn [expect].
  rewrite (take_digits_app 2 m) by assumption. cbn [expect].
  now rewrite (take_digits_app 2 d) by assumption.
Qed.

Lemma match_ymd_wrong_sep sep y c r :
  all_digits y = true -> String.length y = 4%nat ->
  Ascii.eqb sep c = false ->
  match_ymd (Some sep) (y ++ String c r)%string = None.
Proof.
  intros Hy Ly Hc. unfold match_ymd.
  rewrite (take_digits_app 4 y) by assumption. cbn [expect].
  now rewrite Hc.
Qed.

(** X10.  The three date formats give the same date, and only the date
    counts: for digits [y] (4), [m] (2) and [d] (2) whose date the host
    accepts, a string that starts with [y/m/d], with [y-m-d] or with [ymd]
    converts to midnight UTC of that day, whatever follows (a time of day
    is dropped). *)
Theorem convert_timestamp_date_prefix y m d rest t :
  all_digits y = true -> String.length y = 4%nat ->
  all_digits m = true -> String.length m = 2%nat ->
  all_digits d = true -> String.length d = 2%nat ->
  Date_parse (y ++ "-" ++ m ++ "-" ++ d ++ "T00:00:00Z")%string = Some t ->
  convert_timestamp (JStr (y ++ "/" ++ m ++ "/" ++ d ++ rest)%string)
  = Some t
  /\ convert_timestamp (JStr (y ++ "-" ++ m ++ "-" ++ d ++ rest)%string)
     = Some t
  /\ convert_timestamp (JStr (y ++ m ++ d ++ rest)%string) = Some t.
Proof.
  intros Hy Ly Hm Lm Hd Ld Hp.
  unfold Normalizer.convert_timestamp, formats.
  cbn [Normalizer.try_formats].
  repeat split.
  - change (y ++ "/" ++ m ++ "/" ++ d ++ rest)%string
      with (y ++ String "/" (m ++ String "/" (d ++ rest)))%string.
    rewrite match_ymd_sep by assumption. now rewrite Hp.
  - change (y ++ "-" ++ m ++ "-" ++ d ++ rest)%string
      with (y ++ String "-" (m ++ String "-" (d ++ rest)))%string.
    rewrite match_ymd_wrong_sep by (assumption || reflexivity).
    rewrite match_ymd_sep by assumption. now rewrite Hp.
  - rewrite match_ymd_plain by assumption.
    destruct m as [|c r]; [discriminate|].
    simpl in Hm. apply andb_prop in Hm. destruct Hm as [Hc _].
    change (y ++ String c r ++ d ++ rest)%string
      with (y ++ String c (r ++ d ++ rest))%string.
    rewrite !match_ymd_wrong_sep
      by (assumption || (apply is_digit_not_sep; [assumption|reflexivity])).
    now rewrite Hp.
Qed.

End NormalizerProperties.

(** ** The Event Processor *)

Lemma find_none_not_in {A B} (key : A -> B) (eqb : B -> B -> bool) k l :
  (forall a, eqb a a = true) ->
  find (fun x => eqb (key x) k) l = None -> ~ In k (map key l).
Proof.
  intros Hrefl Hf Hin. apply in_map_iff in Hin.
  destruct Hin as (x & <- & Hx).
  pose proof (find_none _ _ Hf x Hx) as Q. simpl in Q.
  rewrite Hrefl in Q. discriminate.
Qed.

Lemma recover_normalized committed ev message :
  normalizedEvents (snd (recover committed ev message))
  = normalizedEvents committed.
Proof. unfold recover. destruct (findRawByHash _ _); reflexivity. Qed.

Lemma updateFirst_hashes id f l :
  (forall x, contentHash (f x) = contentHash x) ->
  map contentHash (updateFirst id f l) = map contentHash l.
Proof.
  intros Hf. induction l as [|x l IH]; simpl; [reflexivity|].
  destruct (raw_id x =? id)%nat; simpl; [now rewrite Hf|now rewrite IH].
Qed.

Lemma count_updateFirst (p : RawEvent -> bool) f l r0 :
  NoDup (map raw_id l) -> In r0 l -> p r0 = false ->
  List.length (filter p (updateFirst (raw_id r0) f l))
  = (List.length (filter p l) + (if p (f r0) then 1 else 0))%nat.
Proof.
  intros Hnd Hin Hp. induction l as [|x l IH]; [contradiction|].
  simpl in Hnd. inversion Hnd as [|? ? Hx Hnd']; subst. simpl.
  destruct (raw_id x =? raw_id r0)%nat eqn:E.
  - apply Nat.eqb_eq in E.
    assert (x = r0) as ->.
    { destruct Hin as [H|H]; [exact H|].
      exfalso. apply Hx. rewrite E. now apply in_map. }
    simpl. rewrite Hp. destruct (p (f r0)); simpl; lia.
  - destruct Hin as [->|Hin]; [rewrite Nat.eqb_refl in E; discriminate|].
    simpl. destruct (p x); simpl; rewrite (IH Hnd' Hin); lia.
Qed.

Lemma Forall_updateFirst (P : RawEvent -> Prop) id f l :
  (forall x, P (f x)) -> Forall P l -> Forall P (updateFirst id f l).
Proof.
  intros Hf H. induction H as [|x l Hx H IH]; simpl; [constructor|].
  destruct (raw_id x =? id)%nat; constructor; auto.
Qed.

Lemma count_final (l : list RawEvent) :
  Forall (fun r => final (status r)) l ->
  (List.length (filter (fun r => Status_eqb (status r) normalized) l)
   + List.length (filter (fun r => Status_eqb (status r) failed) l)
   + List.length (filter (fun r => Status_eqb (status r) duplicate) l)
   = List.length l)%nat.
Proof.
  induction 1 as [|x l Hx H IH]; [reflexivity|]. simpl.
  destruct Hx as [E | [E | E]]; rewrite E; simpl; lia.
Qed.

Section ProcessorProperties.

Variable Date_parse : string -> option Z.

#[local] Abbreviation normalize := (Normalizer.normalize Date_parse).
#[local] Abbreviation processEvent := (EventProcessor.processEvent Date_parse).
#[local] Abbreviation steps1to5 := (EventProcessor.steps1to5 Date_parse).
#[local] Abbreviation steps3to5 := (EventProcessor.steps3to5 Date_parse).
#[local] Abbreviation processEventRacing :=
  (EventProcessor.processEventRacing Date_parse).
#[local] Abbreviation run := (EventProcessor.run Date_parse).

Lemma steps3to5_normalized db ev h :
  match steps3to5 db ev h with
  | Return r d =>
      normalizedEvents d = normalizedEvents db /\ outcome r <> outcome_success
  | Continue rawEvent tx n =>
      normalizedEvents tx = normalizedEvents db
      /\ (rawEvent, tx) = upsertRaw h ev db
      /\ normalize (ev_source ev) (ev_payload ev) = Canonical n
      /\ findNormalizedByHash (normalizedHash n) db = None
  end.
Proof.
  unfold EventProcessor.steps3to5.
  pose proof (upsertRaw_normalized h ev db) as P.
  destruct (upsertRaw h ev db) as [r t]. simpl in P.
  destruct (normalize _ _) as [n|error].
  - destruct (findNormalizedByHash (normalizedHash n) t) eqn:F.
    + simpl. split; [exact P|discriminate].
    + repeat split; auto. unfold findNormalizedByHash in *.
      now rewrite <- P.
  - simpl. split; [exact P|discriminate].
Qed.

Lemma steps1to5_normalized db ev :
  match steps1to5 db ev with
  | Return r d =>
      normalizedEvents d = normalizedEvents db /\ outcome r <> outcome_success
  | Continue rawEvent tx n =>
      normalizedEvents tx = normalizedEvents db
      /\ (rawEvent, tx) = upsertRaw (_generateRawHash ev) ev db
      /\ normalize (ev_source ev) (ev_payload ev) = Canonical n
      /\ findNormalizedByHash (normalizedHash n) db = None
  end.
Proof.
  unfold EventProcessor.steps1to5.
  destruct (find _ (rawEvents db)) as [x|];
    [destruct (Status_eqb (status x) normalized)|];
    try apply steps3to5_normalized.
  simpl. split; [reflexivity|discriminate].
Qed.

Lemma steps6to9_unique committed rawEvent tx n ev sim :
  uniqueHashes committed -> uniqueHashes tx ->
  uniqueHashes (snd (steps6to9 committed rawEvent tx n ev sim)).
Proof.
  intros Hc Ht. unfold steps6to9, uniqueHashes in *.
  destruct sim; [now rewrite recover_normalized|].
  unfold save. cbn [fields].
  destruct (findNormalizedByHash (normalizedHash n) tx) eqn:F.
  - now rewrite recover_normalized.
  - simpl. rewrite map_app. apply NoDup_snoc; [exact Ht|].
    simpl. unfold findNormalizedByHash in F.
    apply (find_none_not_in (fun e => normalizedHash (fields e))
             String.eqb _ _ String.eqb_refl F).
Qed.

(** X11.  A call never stores two NormalizedEvents with the same
    [normalizedHash]: if the hashes of the normalized collection are
    pairwise distinct before a [processEvent] call, they are after it. *)
Theorem processEvent_keeps_normalized_hashes_unique db ev sim :
  uniqueHashes db -> uniqueHashes (snd (processEvent db ev sim)).
Proof.
  intros Hu. unfold EventProcessor.processEvent.
  pose proof (steps1to5_normalized db ev) as P.
  destruct (steps1to5 db ev) as [r d|rawEvent tx n].
  - simpl. unfold uniqueHashes in *. destruct P as [-> _]. exact Hu.
  - destruct P as (P & _). apply steps6to9_unique; auto.
    unfold uniqueHashes in *. now rewrite P.
Qed.

(** X12.  The same holds when other callers commit documents between this
    call's step 5 and step 7: as long as the collection they leave has
    pairwise distinct hashes, so has the collection after this call,
    whether its insert succeeds or fails on the unique index. *)
Theorem processEventRacing_keeps_normalized_hashes_unique others db ev sim :
  uniqueHashes (interfere others db) ->
  uniqueHashes (snd (processEventRacing others db ev sim)).
Proof.
  intros Hu. unfold EventProcessor.processEventRacing.
  assert (Hdb : uniqueHashes db).
  { unfold uniqueHashes, interfere in *. simpl in Hu.
    rewrite map_app in Hu. now apply NoDup_app_remove_r in Hu. }
  pose proof (steps1to5_normalized db ev) as P.
  destruct (steps1to5 db ev) as [r d|rawEvent tx n].
  - simpl. unfold uniqueHashes in *. destruct P as [-> _]. exact Hdb.
  - destruct P as (P & _). apply steps6to9_unique; auto.
    unfold uniqueHashes, interfere in *. simpl in *. now rewrite P.
Qed.

(** How one call leaves the raw collection: as it was; or with the
    RawEvent of the input, found by its hash, updated to a final status;
    or with a new RawEvent for the input at the end. *)
Lemma processEvent_raw_shape db ev sim :
  rawEvents (snd (processEvent db ev sim)) = rawEvents db
  \/ (exists r0 f,
        findRawByHash (_generateRawHash ev) db = Some r0
        /\ finalizes f
        /\ rawEvents (snd (processEvent db ev sim))
           = updateFirst (raw_id r0) f (rawEvents db))
  \/ (exists s m,
        findRawByHash (_generateRawHash ev) db = None
        /\ final s
        /\ rawEvents (snd (processEvent db ev sim))
           = rawEvents db ++ [created db ev s m]).
Proof.
  destruct (findRawByHash (_generateRawHash ev) db) as [r0|] eqn:Hfind.
  - unfold EventProcessor.processEvent.
    destruct (steps1to5_seen Date_parse db ev r0 Hfind)
      as [[r ->]|[Hst ->]]; [now left|].
    right. left. exists r0.
    unfold EventProcessor.steps3to5, upsertRaw. rewrite Hfind.
    destruct (normalize _ _) as [n|error].
    + destruct (findNormalizedByHash (normalizedHash n) db) eqn:F.
      * exists (setStatus duplicate). repeat split.
        apply setStatus_finalizes. unfold final. auto.
      * unfold EventProcessor.steps6to9, recover, save.
        cbn [fields]. rewrite Hfind, F. destruct sim.
        -- exists (setFailed "Simulated database failure").
           repeat split. apply setFailed_finalizes.
        -- exists (setStatus normalized). repeat split.
           apply setStatus_finalizes. unfold final. auto.
    + exists (setFailed error). repeat split. apply setFailed_finalizes.
  - rewrite (processEvent_unseen Date_parse db ev sim Hfind).
    destruct (normalize _ _) as [n|error].
    + destruct (findNormalizedByHash (normalizedHash n) db).
      * right. right. exists duplicate, None. unfold final. auto.
      * destruct sim; [now left|].
        right. right. exists normalized, None. unfold final. auto.
    + right. right. exists failed, (Some error). unfold final. auto.
Qed.

(** X13.  A call never stores two RawEvents with the same [contentHash]:
    the upsert of step 3 reuses the RawEvent of an input seen before, so
    pairwise distinct content hashes stay pairwise distinct. *)
Theorem processEvent_keeps_content_hashes_unique db ev sim :
  uniqueContent db -> uniqueContent (snd (processEvent db ev sim)).
Proof.
  intros Hu. unfold uniqueContent in *.
  destruct (processEvent_raw_shape db ev sim)
    as [->|[(r0 & f & _ & Hf & ->)|(s & m & Hun & _ & ->)]].
  - exact Hu.
  - rewrite updateFirst_hashes; [exact Hu|]. intros x. apply Hf.
  - rewrite map_app. apply NoDup_snoc; [exact Hu|]. simpl.
    apply (find_none_not_in contentHash String.eqb _ _ String.eqb_refl Hun).
Qed.

(** A call on an input whose RawEvent [r0] is in the store: it returns at
    step 2, or it updates [r0] to [failed] or [duplicate], or it stores the
    NormalizedEvent and updates [r0] to [normalized]. *)
Lemma processEvent_seen_cases db ev sim r0 :
  findRawByHash (_generateRawHash ev) db = Some r0 ->
  (exists r, processEvent db ev sim = (r, db)
             /\ outcome r = outcome_duplicate)
  \/ (status r0 <> normalized
      /\ exists r f,
           processEvent db ev sim
           = (r, findByIdAndUpdate (raw_id r0) f db)
           /\ (outcome r = outcome_processing_error ->
               sim = true
               /\ r = Rejected processing_error "Simulated database failure"
                        None None
               /\ f = setFailed "Simulated database failure")
           /\ outcome r <> outcome_success
           /\ finalizes f
           /\ forall x, status (f x) <> normalized)
  \/ (status r0 <> normalized
      /\ sim = false
      /\ exists n,
           normalize (ev_source ev) (ev_payload ev) = Canonical n
           /\ findNormalizedByHash (normalizedHash n) db = None
           /\ processEvent db ev sim
              = (Processed "Event processed successfully" (raw_id r0)
                   (freshId db) n,
                 mkStore
                   (updateFirst (raw_id r0) (setStatus normalized)
                      (rawEvents db))
                   (normalizedEvents db
                    ++ [mkNormalizedEvent (freshId db) n (raw_id r0)]))).
Proof.
  intros Hfind.
  match goal with
  | |- ?G =>
      assert (H35 : status r0 <> normalized ->
                    steps1to5 db ev = steps3to5 db ev (_generateRawHash ev) ->
                    G)
  end.
  2: { unfold EventProcessor.steps1to5 in *.
       destruct (find _ (rawEvents db)) as [x|] eqn:E;
         [destruct (Status_eqb (status x) normalized) eqn:S|].
       - left. unfold EventProcessor.processEvent, EventProcessor.steps1to5.
         rewrite E, S. eexists. split; reflexivity.
       - apply H35; [|reflexivity]. intros Hn.
         unfold findRawByHash in Hfind.
         rewrite (find_and_first _
                    (fun r => Status_eqb (status r) normalized
                              || Status_eqb (status r) processing)
                    _ _ Hfind) in E.
         + inversion E; subst. rewrite Hn in S. discriminate.
         + rewrite Hn. reflexivity.
       - apply H35; [|reflexivity]. intros Hn.
         unfold findRawByHash in Hfind.
         rewrite (find_and_first _
                    (fun r => Status_eqb (status r) normalized
                              || Status_eqb (status r) processing)
                    _ _ Hfind) in E.
         + discriminate.
         + rewrite Hn. reflexivity. }
  intros Hst E. right.
  unfold EventProcessor.processEvent. rewrite E.
  unfold EventProcessor.steps3to5, upsertRaw. rewrite Hfind.
  destruct (normalize _ _) as [n|error].
  - destruct (findNormalizedByHash (normalizedHash n) db) eqn:F.
    + left. split; [exact Hst|].
      eexists. exists (setStatus duplicate).
      split; [reflexivity|]. split; [discriminate|].
      split; [discriminate|].
      split; [apply setStatus_finalizes; unfold final; auto|].
      intros x. simpl. discriminate.
    + unfold EventProcessor.steps6to9, recover, save.
      cbn [fields]. rewrite Hfind, F. destruct sim.
      * left. split; [exact Hst|].
        eexists. exists (setFailed "Simulated database failure").
        split; [reflexivity|]. split; [auto|].
        split; [discriminate|].
        split; [apply setFailed_finalizes|].
        intros x. simpl. discriminate.
      * right. split; [exact Hst|]. split; [reflexivity|].
        exists n. split; [reflexivity|]. split; [exact F|]. reflexivity.
  - left. split; [exact Hst|].
    eexists. exists (setFailed error).
    split; [reflexivity|]. split; [discriminate|].
    split; [discriminate|].
    split; [apply setFailed_finalizes|].
    intros x. simpl. discriminate.
Qed.

(** X14.  What a successful call has stored.  When [processEvent] answers
    success, the fault was not injected, the NormalizedEvent it reports
    was not in the store before and is now its last document, found by
    its [normalizedHash], and the RawEvent it reports is the one of the
    input's content hash, with status [normalized]. *)
Theorem processEvent_success_stores_both db ev sim message rid nid n db1 :
  NoDup (map raw_id (rawEvents db)) ->
  processEvent db ev sim = (Processed message rid nid n, db1) ->
  sim = false
  /\ message = "Event processed successfully"
  /\ normalize (ev_source ev) (ev_payload ev) = Canonical n
  /\ findNormalizedByHash (normalizedHash n) db = None
  /\ normalizedEvents db1
     = normalizedEvents db ++ [mkNormalizedEvent nid n rid]
  /\ findNormalizedByHash (normalizedHash n) db1
     = Some (mkNormalizedEvent nid n rid)
  /\ exists r,
       findRawByHash (_generateRawHash ev) db1 = Some r
       /\ raw_id r = rid /\ status r = normalized.
Proof.
  intros Hnd H.
  assert (Hlast : forall l e,
             find (fun x => (normalizedHash (fields x)
                             =? normalizedHash (fields e))%string) l = None ->
             find (fun x => (normalizedHash (fields x)
                             =? normalizedHash (fields e))%string)
                  (l ++ [e]) = Some e).
  { intros l e F. rewrite (find_app_none _ _ _ F). simpl.
    now rewrite String.eqb_refl. }
  destruct (findRawByHash (_generateRawHash ev) db) as [r0|] eqn:Hfind.
  - destruct (processEvent_seen_cases db ev sim r0 Hfind)
      as [(r & E & Ho)|[(_ & r & f & E & _ & Ho & _)|(Hst & -> & m & Hn & F & E)]];
      rewrite E in H; inversion H; subst; try discriminate;
      try (now exfalso; apply Ho).
    repeat (split; [auto; fail|]).
    split; [apply (Hlast _ (mkNormalizedEvent (freshId db) n (raw_id r0)) F)|].
    exists (setStatus normalized r0).
    split; [|simpl; auto].
    unfold findRawByHash. cbn [rawEvents].
    apply updateFirst_found; auto.
  - rewrite (processEvent_unseen Date_parse db ev sim Hfind) in H.
    destruct (normalize _ _) as [m|error]; [|discriminate].
    destruct (findNormalizedByHash (normalizedHash m) db) eqn:F;
      [discriminate|].
    destruct sim; [discriminate|].
    cbn zeta in H. inversion H; subst.
    repeat (split; [auto; fail|]).
    split; [apply (Hlast _ (mkNormalizedEvent _ n (freshId db)) F)|].
    exists (created db ev normalized None).
    split; [|simpl; auto].
    unfold findRawByHash in *. cbn [rawEvents].
    rewrite (find_app_none _ _ _ Hfind).
    cbn [find contentHash created]. now rewrite String.eqb_refl.
Qed.

(** X15.  With [simulateFailure] set, a call never answers success and
    never changes the normalized collection, whatever the store and the
    input. *)
Theorem injected_fault_never_stores_normalized db ev :
  outcome (fst (processEvent db ev true)) <> outcome_success
  /\ normalizedEvents (snd (processEvent db ev true)) = normalizedEvents db.
Proof.
  unfold EventProcessor.processEvent.
  pose proof (steps1to5_normalized db ev) as P.
  destruct (steps1to5 db ev) as [r d|rawEvent tx n].
  - simpl. destruct P as [P Q]. split; [exact Q|exact P].
  - unfold steps6to9. rewrite recover_normalized.
    split; [discriminate|reflexivity].
Qed.

(** X16.  A call that runs on its own fails with [processing_error] only
    when the fault is injected: the [catch] block is reached only from the
    [throw] of step 6, and its result carries that message and no ids. *)
Theorem processing_error_only_when_injected db ev sim :
  outcome (fst (processEvent db ev sim)) = outcome_processing_error ->
  sim = true
  /\ fst (processEvent db ev sim)
     = Rejected processing_error "Simulated database failure" None None.
Proof.
  destruct (findRawByHash (_generateRawHash ev) db) as [r0|] eqn:Hfind.
  - destruct (processEvent_seen_cases db ev sim r0 Hfind)
      as [(r & E & Ho)|[(_ & r & f & E & Hp & _)|(_ & _ & m & _ & _ & E)]];
      rewrite E; simpl; intros H; try congruence.
    destruct (Hp H) as (-> & -> & _). auto.
  - rewrite (processEvent_unseen Date_parse db ev sim Hfind).
    destruct (normalize _ _) as [m|error]; [|discriminate].
    destruct (findNormalizedByHash (normalizedHash m) db);
      [discriminate|].
    destruct sim; [auto|discriminate].
Qed.

(** X17.  The recovery write of the [catch] block.  When the injected
    fault strikes a call whose input already has a RawEvent that is not
    [normalized], that RawEvent is set to [failed] with the fault's
    message, outside the aborted transaction; nothing else changes. *)
Theorem injected_fault_marks_existing_raw_event_failed db ev r0 n :
  NoDup (map raw_id (rawEvents db)) ->
  findRawByHash (_generateRawHash ev) db = Some r0 ->
  (forall r, In r (rawEvents db) ->
             contentHash r = _generateRawHash ev -> status r <> normalized) ->
  normalize (ev_source ev) (ev_payload ev) = Canonical n ->
  findNormalizedByHash (normalizedHash n) db = None ->
  processEvent db ev true
  = (Rejected processing_error "Simulated database failure" None None,
     findByIdAndUpdate (raw_id r0) (setFailed "Simulated database failure")
       db)
  /\ findRawByHash (_generateRawHash ev) (snd (processEvent db ev true))
     = Some (setFailed "Simulated database failure" r0).
Proof.
  intros Hnd Hfind Hall Hn F.
  assert (E : processEvent db ev true
              = (Rejected processing_error "Simulated database failure"
                   None None,
                 findByIdAndUpdate (raw_id r0)
                   (setFailed "Simulated database failure") db)).
  { unfold EventProcessor.processEvent, EventProcessor.steps1to5.
    destruct (find _ (rawEvents db)) as [x|] eqn:Ex.
    - apply find_some in Ex. destruct Ex as [Hin Hx].
      apply andb_prop in Hx. destruct Hx as [Hh Hs].
      apply String.eqb_eq in Hh.
      destruct (Status_eqb (status x) normalized) eqn:S.
      + apply Status_eqb_eq in S. now destruct (Hall x Hin Hh).
      + unfold EventProcessor.steps3to5, upsertRaw.
        rewrite Hfind, Hn, F. unfold steps6to9, recover.
        now rewrite Hfind.
    - unfold EventProcessor.steps3to5, upsertRaw.
      rewrite Hfind, Hn, F. unfold steps6to9, recover.
      now rewrite Hfind. }
  split; [exact E|]. rewrite E. unfold findRawByHash. cbn [snd].
  unfold findByIdAndUpdate. cbn [rawEvents].
  apply updateFirst_found; auto.
Qed.

(** X18.  A call keeps the references of the normalized collection
    resolved: if every NormalizedEvent of the store refers to a RawEvent
    of the store, so it is after the call. *)
Theorem processEvent_keeps_references_resolved db ev sim :
  referencesResolve db -> referencesResolve (snd (processEvent db ev sim)).
Proof.
  intros Href.
  assert (Hold : forall raws',
             (forall i, In i (map raw_id (rawEvents db)) ->
                        In i (map raw_id raws')) ->
             referencesResolve (mkStore raws' (normalizedEvents db))).
  { intros raws' Hsub e He. apply Hsub, Href, He. }
  assert (Hnew : forall raws' e,
             (forall i, In i (map raw_id (rawEvents db)) ->
                        In i (map raw_id raws')) ->
             In (rawEventId e) (map raw_id raws') ->
             referencesResolve (mkStore raws' (normalizedEvents db ++ [e]))).
  { intros raws' e Hsub Hin x Hx. simpl in Hx. apply in_app_or in Hx.
    destruct Hx as [Hx|[<-|[]]]; [apply Hsub, Href, Hx|exact Hin]. }
  destruct (findRawByHash (_generateRawHash ev) db) as [r0|] eqn:Hfind.
  - destruct (processEvent_seen_cases db ev sim r0 Hfind)
      as [(r & E & _)|[(_ & r & f & E & _ & _ & Hf & _)
                      |(_ & _ & n & _ & _ & E)]];
      rewrite E; cbn [snd].
    + exact Href.
    + apply Hold. intros i Hi. rewrite updateFirst_ids; [exact Hi|].
      intros x. apply Hf.
    + apply Hnew.
      * intros i Hi. now rewrite updateFirst_ids.
      * rewrite updateFirst_ids by reflexivity. simpl.
        apply in_map. unfold findRawByHash in Hfind.
        now apply find_some in Hfind.
  - rewrite (processEvent_unseen Date_parse db ev sim Hfind).
    assert (Hsub : forall r i, In i (map raw_id (rawEvents db)) ->
                               In i (map raw_id (rawEvents db ++ [r]))).
    { intros r i Hi. rewrite map_app. apply in_or_app. now left. }
    destruct (normalize _ _) as [n|error].
    + destruct (findNormalizedByHash (normalizedHash n) db).
      * cbn [snd]. apply Hold, Hsub.
      * destruct sim; cbn zeta; cbn [snd]; [exact Href|].
        apply Hnew; [apply Hsub|].
        rewrite map_app. apply in_or_app. right. simpl. now left.
    + cbn [snd]. apply Hold, Hsub.
Qed.

Lemma processEvent_keeps_ids_distinct db ev sim :
  NoDup (map raw_id (rawEvents db)) ->
  NoDup (map raw_id (rawEvents (snd (processEvent db ev sim)))).
Proof.
  intros Hnd.
  destruct (processEvent_raw_shape db ev sim)
    as [->|[(r0 & f & _ & Hf & ->)|(s & m & _ & _ & ->)]].
  - exact Hnd.
  - rewrite updateFirst_ids; [exact Hnd|]. intros x. apply Hf.
  - rewrite map_app. apply NoDup_snoc; [exact Hnd|]. simpl.
    intros Hin. apply in_map_iff in Hin. destruct Hin as (x & Hx & Hin).
    apply freshId_raw in Hin. lia.
Qed.

Lemma processEvent_keeps_statuses_final db ev sim :
  Forall (fun r => final (status r)) (rawEvents db) ->
  Forall (fun r => final (status r))
         (rawEvents (snd (processEvent db ev sim))).
Proof.
  intros Hfin.
  destruct (processEvent_raw_shape db ev sim)
    as [->|[(r0 & f & _ & Hf & ->)|(s & m & _ & Hs & ->)]].
  - exact Hfin.
  - apply Forall_updateFirst; [|exact Hfin]. intros x. apply Hf.
  - apply Forall_app. split; [exact Hfin|].
    constructor; [exact Hs|constructor].
Qed.

Lemma processEvent_keeps_counts db ev sim :
  NoDup (map raw_id (rawEvents db)) ->
  countRaw normalized db = List.length (normalizedEvents db) ->
  countRaw normalized (snd (processEvent db ev sim))
  = List.length (normalizedEvents (snd (processEvent db ev sim))).
Proof.
  intros Hnd Hc. unfold countRaw in *.
  destruct (findRawByHash (_generateRawHash ev) db) as [r0|] eqn:Hfind.
  - assert (Hin : In r0 (rawEvents db))
      by (unfold findRawByHash in Hfind; now apply find_some in Hfind).
    assert (Hp : forall s, s <> normalized -> Status_eqb s normalized = false).
    { intros s Hs. destruct (Status_eqb s normalized) eqn:E; [|reflexivity].
      apply Status_eqb_eq in E. contradiction. }
    destruct (processEvent_seen_cases db ev sim r0 Hfind)
      as [(r & E & _)|[(Hst & r & f & E & _ & _ & _ & Hf)
                      |(Hst & _ & n & _ & _ & E)]];
      rewrite E; cbn [snd]; [exact Hc| |].
    + unfold findByIdAndUpdate. cbn [rawEvents normalizedEvents].
      rewrite (count_updateFirst
                 (fun r => Status_eqb (status r) normalized) f _ r0 Hnd Hin
                 (Hp _ Hst)).
      rewrite (Hp _ (Hf r0)). lia.
    + cbn [rawEvents normalizedEvents].
      rewrite (count_updateFirst
                 (fun r => Status_eqb (status r) normalized) _ _ r0 Hnd Hin
                 (Hp _ Hst)).
      rewrite length_app. simpl. lia.
  - rewrite (processEvent_unseen Date_parse db ev sim Hfind).
    destruct (normalize _ _) as [n|error].
    + destruct (findNormalizedByHash (normalizedHash n) db).
      * cbn [snd rawEvents normalizedEvents]. rewrite filter_app.
        rewrite length_app. simpl. lia.
      * destruct sim; cbn zeta; cbn [snd rawEvents normalizedEvents];
          [exact Hc|].
        rewrite filter_app. rewrite !length_app. simpl. lia.
    + cbn [snd rawEvents normalizedEvents]. rewrite filter_app.
      rewrite length_app. simpl. lia.
Qed.

Lemma run_invariant calls :
  forall db,
    NoDup (map raw_id (rawEvents db)) ->
    Forall (fun r => final (status r)) (rawEvents db) ->
    countRaw normalized db = List.length (normalizedEvents db) ->
    Forall (fun r => final (status r)) (rawEvents (run db calls))
    /\ countRaw normalized (run db calls)
       = List.length (normalizedEvents (run db calls)).
Proof.
  induction calls as [|[ev sim] calls IH]; intros db Hnd Hfin Hc.
  - simpl. auto.
  - simpl. apply IH.
    + now apply processEvent_keeps_ids_distinct.
    + now apply processEvent_keeps_statuses_final.
    + now apply processEvent_keeps_counts.
Qed.

(** X19.  After any sequence of calls on an empty store, the statistics
    report as many processed RawEvents as there are NormalizedEvents:
    [totalProcessed] equals [totalNormalized]. *)
Theorem statistics_processed_equals_normalized calls :
  totalProcessed (getStatistics (run emptyStore calls))
  = totalNormalized (getStatistics (run emptyStore calls)).
Proof.
  simpl. apply run_invariant; [constructor|constructor|reflexivity].
Qed.

(** X20.  After any sequence of calls on an empty store, every RawEvent
    is counted once by the statistics: no RawEvent is left [pending] or
    [processing], and the three counters add up to the size of the raw
    collection. *)
Theorem statistics_count_every_raw_event calls :
  Forall (fun r => final (status r)) (rawEvents (run emptyStore calls))
  /\ (totalProcessed (getStatistics (run emptyStore calls))
      + totalFailed (getStatistics (run emptyStore calls))
      + totalDuplicates (getStatistics (run emptyStore calls))
      = List.length (rawEvents (run emptyStore calls)))%nat.
Proof.
  assert (H : Forall (fun r => final (status r))
                     (rawEvents (run emptyStore calls))).
  { apply run_invariant; [constructor|constructor|reflexivity]. }
  split; [exact H|]. simpl. unfold countRaw. now apply count_final.
Qed.

Lemma processEvent_keeps_linked U db ev sim :
  collisionFree U -> In ev U -> consistent Date_parse U db ->
  linked Date_parse db ->
  linked Date_parse (snd (processEvent db ev sim)).
Proof.
  intros HU Hev Hc Hl.
  destruct (findRawByHash (_generateRawHash ev) db) as [r0|] eqn:Hfind.
  - now rewrite (processEvent_seen Date_parse U db ev sim r0 HU Hev Hc Hfind).
  - rewrite (processEvent_unseen Date_parse db ev sim Hfind).
    unfold linked in *.
    destruct (normalize _ _) as [n|error] eqn:Hn.
    + destruct (findNormalizedByHash (normalizedHash n) db).
      * cbn [snd rawEvents normalizedEvents]. rewrite filter_app.
        simpl. now rewrite app_nil_r.
      * destruct sim; cbn zeta; cbn [snd rawEvents normalizedEvents];
          [exact Hl|].
        rewrite filter_app. simpl. apply Forall2_app; [exact Hl|].
        constructor; [|constructor]. simpl. split; [reflexivity|exact Hn].
    + cbn [snd rawEvents normalizedEvents]. rewrite filter_app.
      simpl. now rewrite app_nil_r.
Qed.

(** X21.  After any sequence of calls on an empty store whose inputs have
    pairwise distinct content hashes unless they are equal, the
    NormalizedEvents are, in order, those of the RawEvents with status
    [normalized]: each refers to its RawEvent by [rawEventId] and holds
    the canonical form of that RawEvent's source and payload. *)
Theorem run_links_normalized_to_raw calls :
  collisionFree (map fst calls) ->
  linked Date_parse (run emptyStore calls).
Proof.
  intros HU.
  assert (G : forall cs db,
             (forall c, In c cs -> In (fst c) (map fst calls)) ->
             consistent Date_parse (map fst calls) db ->
             linked Date_parse db -> linked Date_parse (run db cs)).
  { induction cs as [|[ev sim] cs IH]; intros db Hin Hc Hl; [exact Hl|].
    simpl. assert (Hev : In ev (map fst calls))
      by (apply (Hin (ev, sim)); now left).
    apply IH.
    - intros c H. apply Hin. now right.
    - apply (processEvent_step Date_parse _ db ev sim HU Hev Hc).
    - now apply (processEvent_keeps_linked (map fst calls)). }
  apply G.
  - intros c H. now apply in_map.
  - apply consistent_empty.
  - constructor.
Qed.

(** How one call leaves the normalized collection. *)
Lemma processEvent_normalized_growth db ev sim :
  normalizedEvents (snd (processEvent db ev sim))
  = match fst (processEvent db ev sim) with
    | Processed _ rid nid n =>
        normalizedEvents db ++ [mkNormalizedEvent nid n rid]
    | Rejected _ _ _ _ => normalizedEvents db
    end.
Proof.
  unfold EventProcessor.processEvent.
  pose proof (steps1to5_normalized db ev) as P.
  destruct (steps1to5 db ev) as [r d|rawEvent tx n].
  - cbn [fst snd]. destruct P as [P Q].
    destruct r; [now destruct Q|exact P].
  - destruct P as (P & _ & _ & F). unfold steps6to9.
    destruct sim; [now rewrite recover_normalized|].
    unfold save. cbn [fields]. unfold findNormalizedByHash in *.
    rewrite P, F. cbn [fst snd]. unfold findByIdAndUpdate.
    cbn [normalizedEvents norm_id]. reflexivity.
Qed.

(** X22.  The normalized collection is append-only.  A call that answers
    success appends exactly the NormalizedEvent it reports, built from the
    reported ids and canonical fields; any other call leaves the
    collection as it was. *)
Theorem processEvent_appends_only_on_success db ev sim :
  normalizedEvents (snd (processEvent db ev sim))
  = match fst (processEvent db ev sim) with
    | Processed _ rid nid n =>
        normalizedEvents db ++ [mkNormalizedEvent nid n rid]
    | Rejected _ _ _ _ => normalizedEvents db
    end.
Proof. apply processEvent_normalized_growth. Qed.

End ProcessorProperties.

(** ** The route [POST /api/events] *)

(** X23.  The status code tells whether a NormalizedEvent was stored: the
    handler answers 201 exactly when the call appended one NormalizedEvent,
    and otherwise 200 or 400 with the normalized collection unchanged; a
    request without a usable [source] or [payload] is answered 400 without
    a result and without touching the store. *)
Theorem postEvents_status_code Date_parse db source payload simulateFailure :
  let '(code, result, db') :=
    Routes.postEvents Date_parse db source payload simulateFailure in
  ((code = 201%nat
    /\ exists e, normalizedEvents db' = normalizedEvents db ++ [e])
   \/ ((code = 200%nat \/ code = 400%nat)
       /\ normalizedEvents db' = normalizedEvents db))
  /\ (result = None -> code = 400%nat /\ db' = db).
Proof.
  unfold Routes.postEvents.
  destruct source as [s|], payload as [p|];
    try (split; [right; split; [right|]; reflexivity|split; reflexivity]).
  destruct ((s =? "")%string || negb (truthy p));
    [split; [right; split; [right|]; reflexivity|split; reflexivity]|].
  match goal with
  | |- context [EventProcessor.processEvent ?d ?a ?b ?c] =>
      pose proof (processEvent_normalized_growth d a b c) as G;
      destruct (EventProcessor.processEvent d a b c) as [r db']
  end.
  cbn [fst snd] in G. split; [|discriminate].
  destruct r as [m rid nid n|[] m rid nid].
  - left. split; [reflexivity|]. eexists. exact G.
  - right. split; [left; reflexivity|exact G].
  - right. split; [right; reflexivity|exact G].
  - right. split; [right; reflexivity|exact G].
Qed.

(** ** The aggregation routes *)

Lemma option_string_eqb_eq a b : option_string_eqb a b = true <-> a = b.
Proof.
  destruct a as [x|], b as [y|]; simpl; split; intros H;
    try discriminate; try reflexivity.
  - apply String.eqb_eq in H. now subst.
  - inversion H. apply String.eqb_refl.
Qed.

Lemma existsb_option_string x seen :
  existsb (option_string_eqb x) seen = true <-> In x seen.
Proof.
  rewrite existsb_exists. split.
  - intros (y & Hy & E). apply option_string_eqb_eq in E. now subst.
  - intros H. exists x. split; [exact H|]. now apply option_string_eqb_eq.
Qed.

Lemma distinct_In seen l x :
  In x (distinct seen l) <-> In x l /\ ~ In x seen.
Proof.
  revert seen. induction l as [|y l IH]; intros seen; simpl.
  - tauto.
  - destruct (existsb (option_string_eqb y) seen) eqn:E.
    + apply existsb_option_string in E. rewrite IH. split.
      * intros [H1 H2]. auto.
      * intros [[->|H1] H2]; [contradiction|auto].
    + assert (Hy : ~ In y seen).
      { intros H. apply existsb_option_string in H. congruence. }
      simpl. rewrite IH. simpl. split.
      * intros [->|[H1 H2]]; auto.
      * intros [[->|H1] H2]; auto.
        destruct (option_string_eqb y x) eqn:Ex.
        -- apply option_string_eqb_eq in Ex. auto.
        -- right. split; [exact H1|]. intros [->|H]; [|contradiction].
           assert (option_string_eqb x x = true)
             by now apply option_string_eqb_eq.
           congruence.
Qed.

Lemma distinct_NoDup seen l : NoDup (distinct seen l).
Proof.
  revert seen. induction l as [|y l IH]; intros seen; simpl.
  - constructor.
  - destruct (existsb (option_string_eqb y) seen); [apply IH|].
    constructor; [|apply IH].
    rewrite distinct_In. simpl. intros [_ H]. apply H. now left.
Qed.

Lemma distinct_constant k l :
  (forall x, In x l -> x = k) ->
  distinct [] l = match l with [] => [] | _ :: _ => [k] end.
Proof.
  intros H. destruct l as [|y l]; [reflexivity|].
  assert (y = k) as -> by (apply H; now left).
  simpl. f_equal.
  assert (G : forall l', (forall x, In x l' -> x = k) ->
                         distinct [k] l' = []).
  { induction l' as [|z l' IH]; intros Hl; [reflexivity|].
    assert (z = k) as -> by (apply Hl; now left).
    simpl.
    assert (option_string_eqb k k = true) as ->
        by now apply option_string_eqb_eq.
    simpl. apply IH. intros x Hx. apply Hl. now right. }
  apply G. intros x Hx. apply H. now right.
Qed.

Lemma indicator_absent (x : option string) keys :
  ~ In x keys ->
  list_sum (map (fun key => if option_string_eqb x key then 1 else 0)%nat
                keys) = 0%nat.
Proof.
  induction keys as [|k keys IH]; intros H; [reflexivity|]. simpl.
  destruct (option_string_eqb x k) eqn:E.
  - apply option_string_eqb_eq in E. subst. exfalso. apply H. now left.
  - apply IH. intros Hin. apply H. now right.
Qed.

Lemma indicator_present (x : option string) keys :
  NoDup keys -> In x keys ->
  list_sum (map (fun key => if option_string_eqb x key then 1 else 0)%nat
                keys) = 1%nat.
Proof.
  induction 1 as [|k keys Hk Hnd IH]; intros Hin; [contradiction|]. simpl.
  destruct (option_string_eqb x k) eqn:E.
  - apply option_string_eqb_eq in E. subst.
    now rewrite indicator_absent.
  - destruct Hin as [->|Hin]; [|now apply IH].
    assert (option_string_eqb x x = true) by now apply option_string_eqb_eq.
    congruence.
Qed.

Lemma list_sum_map_add {A} (f g h : A -> nat) (l : list A) :
  (forall x, f x = (g x + h x)%nat) ->
  list_sum (map f l) = (list_sum (map g l) + list_sum (map h l))%nat.
Proof.
  intros H. induction l as [|x l IH]; [reflexivity|].
  simpl. rewrite H, IH. lia.
Qed.

(** Grouping by a key partitions a list: the sizes of the groups of
    pairwise distinct keys that cover the list add up to its length. *)
Lemma groups_partition {A} (k : A -> option string) keys (l : list A) :
  NoDup keys -> (forall e, In e l -> In (k e) keys) ->
  list_sum
    (map (fun key =>
            List.length (filter (fun e => option_string_eqb (k e) key) l))
         keys)
  = List.length l.
Proof.
  intros Hnd. induction l as [|e l IH]; intros Hin.
  - simpl. clear. induction keys as [|key keys IH]; simpl; auto.
  - assert (G : forall ks,
               list_sum
                 (map (fun key =>
                         List.length
                           (filter (fun x => option_string_eqb (k x) key)
                                   (e :: l))) ks)
               = (list_sum
                    (map (fun key =>
                            if option_string_eqb (k e) key then 1 else 0)
                         ks)
                  + list_sum
                      (map (fun key =>
                              List.length
                                (filter
                                   (fun x => option_string_eqb (k x) key) l))
                           ks))%nat).
    { intros ks. apply list_sum_map_add. intros key. cbn [filter].
      destruct (option_string_eqb (k e) key); simpl; lia. }
    rewrite G, IH by (intros x Hx; apply Hin; now right).
    rewrite (indicator_present (k e) keys Hnd) by (apply Hin; now left).
    reflexivity.
Qed.

Lemma pipeline_counts q byClient docs :
  list_sum (map count (pipeline q byClient docs))
  = List.length (filter (matches q) docs).
Proof.
  unfold pipeline. rewrite map_map. cbn [count]. unfold groupOf.
  apply groups_partition.
  - apply distinct_NoDup.
  - intros e He. apply distinct_In. split; [now apply in_map|intros []].
Qed.

(** X24.  [GET /api/aggregates] counts every matching event once: the
    counts of the groups it returns add up to the number of
    NormalizedEvents that match the filters, grouped by client or not. *)
Theorem getAggregates_counts_every_match db client_id startDate endDate
  groupBy :
  list_sum (map totals_count
              (getAggregates db client_id startDate endDate groupBy))
  = List.length
      (filter (matches (buildQuery client_id startDate endDate))
              (normalizedEvents db)).
Proof.
  unfold getAggregates. rewrite map_map. cbn [totals_count format].
  apply pipeline_counts.
Qed.

Lemma filter_all {A} (l : list A) : filter (fun _ => true) l = l.
Proof. induction l; simpl; congruence. Qed.

(** X25.  Without [groupBy=client] the route returns one summary, named
    all, over all the matching events, and no summary at all when no
    event matches. *)
Theorem getAggregates_ungrouped db client_id startDate endDate groupBy :
  groupBy <> Some "client" ->
  let matched := filter (matches (buildQuery client_id startDate endDate))
                        (normalizedEvents db) in
  match matched with
  | [] => getAggregates db client_id startDate endDate groupBy = []
  | _ :: _ =>
      exists s,
        getAggregates db client_id startDate endDate groupBy = [s]
        /\ group s = "all"
        /\ totals_count s = List.length matched
        /\ totals_amount s = round2 (Qsum (map amountOrZero matched))
        /\ ranges_amount_min s = Qmin_list (map amountOrZero matched)
        /\ ranges_amount_max s = Qmax_list (map amountOrZero matched)
  end.
Proof.
  intros Hg. cbn zeta. unfold getAggregates, pipeline.
  assert (option_string_eqb groupBy (Some "client") = false) as ->.
  { destruct (option_string_eqb groupBy (Some "client")) eqn:E;
      [|reflexivity].
    apply option_string_eqb_eq in E. contradiction. }
  rewrite (distinct_constant None).
  2: { intros x Hx. apply in_map_iff in Hx. now destruct Hx as (e & <- & _). }
  destruct (filter _ (normalizedEvents db)) as [|e matched] eqn:E;
    [reflexivity|].
  cbn [map]. unfold groupOf. cbn [groupKey option_string_eqb].
  rewrite filter_all. eexists. split; [reflexivity|].
  cbn [format group totals_count totals_amount ranges_amount_min
       ranges_amount_max g_id count totalAmount minAmount maxAmount].
  repeat split.
Qed.

Lemma Qmin_fold_spec r : forall x,
  let m := fold_left (fun m y => if Qle_bool y m then y else m) r x in
  In m (x :: r) /\ forall y, In y (x :: r) -> (m <= y)%Q.
Proof.
  induction r as [|z r IH]; intros x; cbn zeta.
  - simpl. split; [now left|]. intros y [<-|[]]. apply Qle_refl.
  - cbn [fold_left].
    destruct (IH (if Qle_bool z x then z else x)) as [Hin Hle].
    cbn zeta in Hin, Hle. split.
    + destruct Hin as [H|H]; [|right; now right].
      rewrite <- H. destruct (Qle_bool z x); [right|]; now left.
    + intros y Hy.
      assert (Hm : forall w, In w r -> (fold_left
                (fun m y => if Qle_bool y m then y else m) r
                (if Qle_bool z x then z else x) <= w)%Q)
        by (intros w Hw; apply Hle; now right).
      assert (H0 := Hle _ (or_introl eq_refl)).
      destruct (Qle_bool z x) eqn:E.
      * apply Qle_bool_iff in E.
        destruct Hy as [<-|[<-|Hy]]; auto.
        eapply Qle_trans; eassumption.
      * assert (x <= z)%Q.
        { apply Qlt_le_weak, Qnot_le_lt. intros H.
          apply Qle_bool_iff in H. congruence. }
        destruct Hy as [<-|[<-|Hy]]; auto.
        eapply Qle_trans; eassumption.
Qed.

Lemma Qmax_fold_spec r : forall x,
  let m := fold_left (fun m y => if Qle_bool m y then y else m) r x in
  In m (x :: r) /\ forall y, In y (x :: r) -> (y <= m)%Q.
Proof.
  induction r as [|z r IH]; intros x; cbn zeta.
  - simpl. split; [now left|]. intros y [<-|[]]. apply Qle_refl.
  - cbn [fold_left].
    destruct (IH (if Qle_bool x z then z else x)) as [Hin Hle].
    cbn zeta in Hin, Hle. split.
    + destruct Hin as [H|H]; [|right; now right].
      rewrite <- H. destruct (Qle_bool x z); [right|]; now left.
    + intros y Hy.
      assert (Hm : forall w, In w r -> (w <= fold_left
                (fun m y => if Qle_bool m y then y else m) r
                (if Qle_bool x z then z else x))%Q)
        by (intros w Hw; apply Hle; now right).
      assert (H0 := Hle _ (or_introl eq_refl)).
      destruct (Qle_bool x z) eqn:E.
      * apply Qle_bool_iff in E.
        destruct Hy as [<-|[<-|Hy]]; auto.
        eapply Qle_trans; eassumption.
      * assert (z <= x)%Q.
        { apply Qlt_le_weak, Qnot_le_lt. intros H.
          apply Qle_bool_iff in H. congruence. }
        destruct Hy as [<-|[<-|Hy]]; auto.
        eapply Qle_trans; eassumption.
Qed.

(** X26.  Every group of the aggregation pipeline has at least one
    member, and its [minAmount] and [maxAmount] are amounts of members
    (a null amount counting as 0) that bound the amounts of all its
    members. *)
Theorem pipeline_amount_range q byClient docs :
  Forall (fun g =>
            let members :=
              groupOf byClient (filter (matches q) docs) (g_id g) in
            (0 < count g)%nat
            /\ In (minAmount g) (map amountOrZero members)
            /\ In (maxAmount g) (map amountOrZero members)
            /\ forall e, In e members ->
                 (minAmount g <= amountOrZero e
                  /\ amountOrZero e <= maxAmount g)%Q)
         (pipeline q byClient docs).
Proof.
  unfold pipeline. apply Forall_forall. intros g Hg.
  apply in_map_iff in Hg. destruct Hg as (key & <- & Hkey).
  cbn [g_id count minAmount maxAmount]. cbn zeta.
  apply distinct_In in Hkey. destruct Hkey as [Hkey _].
  apply in_map_iff in Hkey. destruct Hkey as (e0 & Hk & He0).
  assert (Hmem : In e0 (groupOf byClient (filter (matches q) docs) key)).
  { unfold groupOf. apply filter_In. split; [exact He0|].
    now apply option_string_eqb_eq. }
  destruct (groupOf byClient (filter (matches q) docs) key)
    as [|e members]; [contradiction|].
  cbn [map Qmin_list Qmax_list].
  destruct (Qmin_fold_spec (map amountOrZero members) (amountOrZero e))
    as [Hmin Hle].
  destruct (Qmax_fold_spec (map amountOrZero members) (amountOrZero e))
    as [Hmax Hge].
  cbn zeta in *.
  split; [simpl; lia|]. split; [exact Hmin|]. split; [exact Hmax|].
  intros x Hx. split; [apply Hle|apply Hge];
    apply (in_map amountOrZero (e :: members) x Hx).
Qed.

Lemma flat_map_NoDup (l : list (option string)) :
  NoDup l ->
  NoDup (flat_map (fun m => match m with
                            | Some s => if (s =? "")%string then [] else [s]
                            | None => []
                            end) l).
Proof.
  induction 1 as [|x l Hx Hnd IH]; [constructor|]. simpl.
  destruct x as [s|]; [|exact IH].
  destruct (s =? "")%string; [exact IH|]. simpl.
  constructor; [|exact IH].
  intros Hin. apply in_flat_map in Hin. destruct Hin as (y & Hy & Hs).
  destruct y as [t|]; [|contradiction].
  destruct (t =? "")%string; [contradiction|].
  destruct Hs as [->|[]]. contradiction.
Qed.

(** X27.  The [metrics] of every summary of [GET /api/aggregates] are
    pairwise distinct and contain no empty string. *)
Theorem getAggregates_metrics_distinct db client_id startDate endDate
  groupBy :
  Forall (fun s => NoDup (metrics s) /\ ~ In "" (metrics s))
         (getAggregates db client_id startDate endDate groupBy).
Proof.
  unfold getAggregates, pipeline. apply Forall_forall. intros s Hs.
  apply in_map_iff in Hs. destruct Hs as (g & <- & Hg).
  apply in_map_iff in Hg. destruct Hg as (key & <- & _).
  cbn [format metrics uniqueMetrics]. split.
  - apply flat_map_NoDup, distinct_NoDup.
  - intros Hin. apply in_flat_map in Hin. destruct Hin as (y & _ & Hy).
    destruct y as [t|]; [|contradiction].
    destruct (t =? "")%string eqn:E; [contradiction|].
    destruct Hy as [->|[]]. discriminate.
Qed.

(** X28.  With a [client_id] filter the route returns at most one summary;
    it is named after that client when grouped by client, and all
    otherwise, and it counts the NormalizedEvents of that client within the
    date range. *)
Theorem getAggregates_client_filter db c startDate endDate groupBy :
  c <> "" ->
  let results := getAggregates db (Some c) startDate endDate groupBy in
  (List.length results <= 1)%nat
  /\ Forall (fun s =>
               group s = (if option_string_eqb groupBy (Some "client")
                          then c else "all")
               /\ totals_count s
                  = List.length
                      (filter (fun e =>
                                 (client_id (fields e) =? c)%string
                                 && matches (mkQuery None startDate endDate)
                                            e)
                              (normalizedEvents db)))
            results.
Proof.
  intros Hc. cbn zeta. unfold getAggregates, pipeline, buildQuery.
  assert ((c =? "")%string = false) as ->
      by (now apply String.eqb_neq).
  set (byClient := option_string_eqb groupBy (Some "client")).
  set (matched := filter (matches (mkQuery (Some c) startDate endDate))
                         (normalizedEvents db)).
  assert (Hm : forall e, In e matched -> client_id (fields e) = c).
  { intros e He. apply filter_In in He. destruct He as [_ He].
    unfold matches in He. cbn [q_client_id] in He.
    apply andb_prop in He. destruct He as [He _].
    apply andb_prop in He. destruct He as [He _].
    now apply String.eqb_eq. }
  assert (Hsame : matched
                  = filter (fun e =>
                              (client_id (fields e) =? c)%string
                              && matches (mkQuery None startDate endDate) e)
                           (normalizedEvents db)).
  { unfold matched. apply filter_ext. intros e. unfold matches.
    cbn [q_client_id q_gte q_lte]. now rewrite andb_assoc. }
  rewrite (distinct_constant (if byClient then Some c else None)).
  2: { intros x Hx. apply in_map_iff in Hx. destruct Hx as (e & <- & He).
       unfold groupKey. now rewrite (Hm e He). }
  clearbody matched.
  destruct matched as [|e0 rest]; [split; [simpl; lia|constructor]|].
  cbn [map List.length]. split; [lia|]. constructor; [|constructor].
  cbn [format group totals_count g_id count]. split.
  - destruct byClient; [|reflexivity].
    apply String.eqb_neq in Hc. now rewrite Hc.
  - rewrite <- Hsame. unfold groupOf. f_equal.
    rewrite <- (filter_all (e0 :: rest)) at 2. apply filter_ext_in.
    intros e He. apply option_string_eqb_eq. unfold groupKey.
    now rewrite (Hm e He).
Qed.

Lemma insertDesc_In x l z : In z (insertDesc x l) -> z = x \/ In z l.
Proof.
  induction l as [|y l IH]; simpl.
  - intros [<-|[]]. now left.
  - destruct (_ && _); simpl.
    + intros [<-|H]; auto.
    + intros [<-|H]; auto. destruct (IH H); auto.
Qed.

Lemma insertDesc_sorted x l :
  StronglySorted (fun a b => (ct_totalAmount b <= ct_totalAmount a)%Q) l ->
  StronglySorted (fun a b => (ct_totalAmount b <= ct_totalAmount a)%Q)
                 (insertDesc x l).
Proof.
  induction 1 as [|y l Hs IH Hy]; simpl.
  - constructor; constructor.
  - destruct (Qle_bool (ct_totalAmount y) (ct_totalAmount x)
              && negb (Qeq_bool (ct_totalAmount y) (ct_totalAmount x)))
      eqn:E.
    + apply andb_prop in E. destruct E as [E _].
      apply Qle_bool_iff in E.
      constructor; [constructor; assumption|].
      constructor; [exact E|].
      rewrite Forall_forall in *. intros z Hz.
      eapply Qle_trans; [apply Hy, Hz|exact E].
    + constructor; [exact IH|].
      rewrite Forall_forall in *. intros z Hz.
      destruct (insertDesc_In _ _ _ Hz) as [->|Hin]; [|now apply Hy].
      apply andb_false_iff in E. destruct E as [E|E].
      * apply Qlt_le_weak, Qnot_le_lt. intros H.
        apply Qle_bool_iff in H. congruence.
      * apply negb_false_iff, Qeq_bool_iff in E. rewrite E.
        apply Qle_refl.
Qed.

Lemma insertDesc_Permutation x l : Permutation (x :: l) (insertDesc x l).
Proof.
  induction l as [|y l IH]; simpl; [reflexivity|].
  destruct (_ && _); [reflexivity|].
  rewrite perm_swap. now constructor.
Qed.

Lemma sortDesc_spec l :
  StronglySorted (fun a b => (ct_totalAmount b <= ct_totalAmount a)%Q)
                 (sortDesc l)
  /\ Permutation l (sortDesc l).
Proof.
  unfold sortDesc.
  assert (G : forall acc,
             StronglySorted
               (fun a b => (ct_totalAmount b <= ct_totalAmount a)%Q) acc ->
             StronglySorted
               (fun a b => (ct_totalAmount b <= ct_totalAmount a)%Q)
               (fold_left (fun acc x => insertDesc x acc) l acc)
             /\ Permutation (l ++ acc)
                  (fold_left (fun acc x => insertDesc x acc) l acc)).
  { induction l as [|x l IH]; intros acc Hacc; simpl; [auto|].
    destruct (IH (insertDesc x acc) (insertDesc_sorted x acc Hacc))
      as [H1 H2].
    split; [exact H1|]. rewrite <- H2.
    rewrite <- insertDesc_Permutation. apply Permutation_middle. }
  destruct (G [] (SSorted_nil _)) as [H1 H2].
  rewrite app_nil_r in H2. auto.
Qed.

Lemma client_names_NoDup (keys : list (option string)) :
  NoDup keys -> (forall key, In key keys -> key <> None) ->
  NoDup (map (fun key => match key with
                         | Some c => c
                         | None => EmptyString
                         end) keys).
Proof.
  induction 1 as [|k ks Hk Hnd IH]; intros Hsome; [constructor|].
  simpl. constructor; [|apply IH; intros key H; apply Hsome; now right].
  intros Hin. apply in_map_iff in Hin. destruct Hin as (k' & Heq & Hk').
  assert (k' = k); [|subst; contradiction].
  pose proof (Hsome k (or_introl eq_refl)).
  pose proof (Hsome k' (or_intror Hk')).
  destruct k, k'; congruence.
Qed.

(** X29.  [GET /api/aggregates/by-client] lists the clients by descending
    total amount, one entry for each client that has a matching event,
    and the counts of the entries add up to the number of matching
    events. *)
Theorem getAggregatesByClient_sorted db startDate endDate :
  let results := getAggregatesByClient db startDate endDate in
  let matched := filter (matches (mkQuery None startDate endDate))
                        (normalizedEvents db) in
  StronglySorted (fun a b => (ct_totalAmount b <= ct_totalAmount a)%Q)
                 results
  /\ NoDup (map ct_client_id results)
  /\ (forall c, In c (map ct_client_id results)
                <-> In c (map (fun e => client_id (fields e)) matched))
  /\ list_sum (map ct_count results) = List.length matched.
Proof.
  cbn zeta. unfold getAggregatesByClient.
  set (matched := filter (matches (mkQuery None startDate endDate))
                         (normalizedEvents db)).
  set (keys := distinct [] (map (groupKey true) matched)).
  match goal with
  | |- context [sortDesc ?l] =>
      set (groups := l); destruct (sortDesc_spec groups) as [Hs Hp]
  end.
  assert (Hkeys : forall key, In key keys ->
                    exists e, In e matched
                              /\ key = Some (client_id (fields e))).
  { intros key Hk. apply distinct_In in Hk. destruct Hk as [Hk _].
    apply in_map_iff in Hk. destruct Hk as (e & <- & He). now exists e. }
  assert (Hids : map ct_client_id groups
                 = map (fun key => match key with
                                   | Some c => c
                                   | None => EmptyString
                                   end) keys).
  { unfold groups. now rewrite map_map. }
  split; [exact Hs|]. split; [|split].
  - apply (Permutation_NoDup (Permutation_map ct_client_id Hp)).
    rewrite Hids.
    apply client_names_NoDup; [apply distinct_NoDup|].
    intros key Hk. destruct (Hkeys key Hk) as (e & _ & ->). discriminate.
  - intros c.
    rewrite <- (Permutation_in' (eq_refl c)
                  (Permutation_map ct_client_id Hp)).
    rewrite Hids. split.
    + intros Hin. apply in_map_iff in Hin. destruct Hin as (k & <- & Hk).
      destruct (Hkeys k Hk) as (e & He & ->).
      apply in_map_iff. now exists e.
    + intros Hin. apply in_map_iff in Hin. destruct Hin as (e & <- & He).
      apply in_map_iff. exists (Some (client_id (fields e))).
      split; [reflexivity|]. apply distinct_In.
      split; [|intros []].
      apply in_map_iff. now exists e.
  - assert (Hsum : forall a b : list nat,
               Permutation a b -> list_sum a = list_sum b).
    { induction 1; simpl; lia. }
    rewrite <- (Hsum _ _ (Permutation_map ct_count Hp)).
    unfold groups. rewrite map_map. cbn [ct_count]. unfold groupOf.
    apply groups_partition.
    + apply distinct_NoDup.
    + intros e He. apply distinct_In. split; [now apply in_map|intros []].
Qed.

(** ** The further properties at concrete inputs *)

Lemma normalize_copies_source_witness :
  exists n,
    Normalizer.normalize Host.Date_parse "A"
      (JObj [("metric", JStr "x"); ("amount", JStr "10")]) = Canonical n
    /\ client_id n = "A".
Proof.
  eexists. split.
  - vm_compute. reflexivity.
  - eapply (proj1 (normalize_copies_source Host.Date_parse "A"
                     (JObj [("metric", JStr "x"); ("amount", JStr "10")])
                     _ _)).
  Unshelve. vm_compute. reflexivity.
Defined.

Lemma normalize_error_messages_witness :
  exists error,
    Normalizer.normalize Host.Date_parse "A" (JStr "oops") = Invalid error
    /\ (error = "Invalid event: missing source or payload"
        \/ error
           = "Normalization error: payload.hasOwnProperty is not a function"
        \/ error
           = "Normalization error: Cannot convert object to primitive value").
Proof.
  eexists. split.
  - vm_compute. reflexivity.
  - apply (normalize_error_messages Host.Date_parse "A" (JStr "oops")).
    vm_compute. reflexivity.
Defined.

Lemma normalize_rejects_hasOwnProperty_field_witness :
  Normalizer.normalize Host.Date_parse "A"
    (JObj [("amount", JNum 5); ("hasOwnProperty", JNum 1)])
  = Invalid "Normalization error: payload.hasOwnProperty is not a function".
Proof.
  apply (normalize_rejects_hasOwnProperty_field Host.Date_parse "A"
           [("amount", JNum 5); ("hasOwnProperty", JNum 1)]).
  - discriminate.
  - reflexivity.
  - simpl. discriminate.
Defined.

Lemma normalize_unrecognized_fields_only_witness :
  Normalizer.normalize Host.Date_parse "A"
    (JObj [("cost", JNum 5); ("kind", JStr "x")])
  = Canonical
      (mkNormalized "A" None None None
         (SHA256.digest_hex (hashInput (mkFields "A" None None None)))).
Proof.
  apply (normalize_unrecognized_fields_only Host.Date_parse "A"
           [("cost", JNum 5); ("kind", JStr "x")]).
  - discriminate.
  - reflexivity.
  - intros raw canonical H. simpl in H.
    repeat (destruct H as [H|H]; [inversion H; reflexivity|]).
    contradiction.
Defined.

Lemma normalize_price_overrides_amount_witness :
  exists n,
    Normalizer.normalize Host.Date_parse "A"
      (JObj [("amount", JNum 5); ("price", JNum 7)]) = Canonical n
    /\ amount n = convert_amount (JNum 7).
Proof.
  eexists. split.
  - vm_compute. reflexivity.
  - eapply (normalize_price_overrides_amount Host.Date_parse "A"
              (JObj [("amount", JNum 5); ("price", JNum 7)]) _ _).
    reflexivity.
  Unshelve. vm_compute. reflexivity.
Defined.

Lemma normalize_time_overrides_date_witness :
  exists n,
    Normalizer.normalize Host.Date_parse "A"
      (JObj [("date", JStr "2024/01/01"); ("time", JStr "2024-02-02")])
    = Canonical n
    /\ timestamp n = convert_timestamp Host.Date_parse (JStr "2024-02-02").
Proof.
  eexists. split.
  - vm_compute. reflexivity.
  - eapply (normalize_time_overrides_date Host.Date_parse "A"
              (JObj [("date", JStr "2024/01/01");
                     ("time", JStr "2024-02-02")]) _ _).
    reflexivity.
  Unshelve. vm_compute. reflexivity.
Defined.

Lemma normalize_value_overrides_metric_witness :
  exists n m,
    Normalizer.normalize Host.Date_parse "A"
      (JObj [("metric", JStr "x"); ("value", JStr "y")]) = Canonical n
    /\ convert_metric (JStr "y") = Normal m
    /\ metric n = Some m.
Proof.
  destruct (Normalizer.normalize Host.Date_parse "A"
              (JObj [("metric", JStr "x"); ("value", JStr "y")]))
    as [n|error] eqn:E.
  - destruct (normalize_value_overrides_metric Host.Date_parse "A"
                (JObj [("metric", JStr "x"); ("value", JStr "y")]) n E
                eq_refl eq_refl) as (m & Hm & Hn).
    exists n, m. split; [reflexivity|]. split; [exact Hm|exact Hn].
  - vm_compute in E. discriminate.
Defined.

Lemma normalize_prototype_named_source_witness :
  Normalizer.normalize Host.Date_parse "toString"
    (JObj [("metric", JStr "x"); ("amount", JStr "10")])
  = Canonical
      (mkNormalized "toString" None None None
         (SHA256.digest_hex
            (hashInput (mkFields "toString" None None None)))).
Proof.
  apply (normalize_prototype_named_source Host.Date_parse "toString"
           (JObj [("metric", JStr "x"); ("amount", JStr "10")])).
  - simpl. do 8 right. left. reflexivity.
  - reflexivity.
  - reflexivity.
Defined.

Lemma normalizedHash_ignores_timestamp_witness :
  exists n n',
    Normalizer.normalize Host.Date_parse "A"
      (JObj [("metric", JStr "x"); ("amount", JStr "10")]) = Canonical n
    /\ Normalizer.normalize Host.Date_parse "A"
         (JObj [("price", JNum 10); ("value", JStr "x");
                ("date", JStr "2024/01/01")]) = Canonical n'
    /\ timestamp n <> timestamp n'
    /\ normalizedHash n = normalizedHash n'.
Proof.
  eexists. eexists. split; [vm_compute; reflexivity|].
  split; [vm_compute; reflexivity|]. split; [discriminate|].
  eapply (normalizedHash_ignores_timestamp Host.Date_parse "A"
            (JObj [("metric", JStr "x"); ("amount", JStr "10")]) _ "A"
            (JObj [("price", JNum 10); ("value", JStr "x");
                   ("date", JStr "2024/01/01")]) _).
  - vm_compute. reflexivity.
  - vm_compute. reflexivity.
  - reflexivity.
  - reflexivity.
  - reflexivity.
Defined.

Lemma convert_timestamp_date_prefix_witness :
  exists t,
    Host.Date_parse "2024-01-15T00:00:00Z" = Some t
    /\ convert_timestamp Host.Date_parse (JStr "2024/01/15 10:30") = Some t
    /\ convert_timestamp Host.Date_parse (JStr "2024-01-15 10:30") = Some t
    /\ convert_timestamp Host.Date_parse (JStr "20240115 10:30") = Some t.
Proof.
  eexists. split.
  - vm_compute. reflexivity.
  - apply (convert_timestamp_date_prefix Host.Date_parse "2024" "01" "15"
             " 10:30"); reflexivity.
Defined.

Lemma processEvent_keeps_normalized_hashes_unique_witness :
  uniqueHashes
    (snd (processEvent Host.Date_parse
            (snd (processEvent Host.Date_parse emptyStore exampleEvent
                    false))
            invalidExample false)).
Proof.
  apply (processEvent_keeps_normalized_hashes_unique Host.Date_parse).
  vm_compute. constructor; [intros []|constructor].
Defined.

Lemma processEventRacing_keeps_normalized_hashes_unique_witness :
  uniqueHashes afterLostRace.
Proof.
  apply (processEventRacing_keeps_normalized_hashes_unique Host.Date_parse
           sameInputWinner emptyStore exampleEvent false).
  vm_compute. constructor; [intros []|constructor].
Defined.

Lemma processEvent_keeps_content_hashes_unique_witness :
  uniqueContent
    (snd (processEvent Host.Date_parse failedStore exampleEvent false)).
Proof.
  apply (processEvent_keeps_content_hashes_unique Host.Date_parse).
  vm_compute. constructor; [intros []|constructor].
Defined.

Lemma processEvent_success_stores_both_witness :
  exists message rid nid n db1,
    processEvent Host.Date_parse failedStore exampleEvent false
    = (Processed message rid nid n, db1)
    /\ findNormalizedByHash (normalizedHash n) db1
       = Some (mkNormalizedEvent nid n rid)
    /\ exists r,
         findRawByHash (_generateRawHash exampleEvent) db1 = Some r
         /\ raw_id r = rid /\ status r = normalized.
Proof.
  destruct (processEvent Host.Date_parse failedStore exampleEvent false)
    as [[message rid nid n|reason message rid nid] db1] eqn:E.
  - destruct (processEvent_success_stores_both Host.Date_parse failedStore
                exampleEvent false message rid nid n db1)
      as (_ & _ & _ & _ & _ & Hn & Hr).
    + simpl. constructor; [intros []|constructor].
    + exact E.
    + exists message, rid, nid, n, db1.
      split; [reflexivity|]. split; [exact Hn|exact Hr].
  - vm_compute in E. discriminate.
Defined.

Lemma processing_error_only_when_injected_witness :
  fst (processEvent Host.Date_parse emptyStore exampleEvent true)
  = Rejected processing_error "Simulated database failure" None None.
Proof.
  apply (processing_error_only_when_injected Host.Date_parse emptyStore
           exampleEvent true).
  vm_compute. reflexivity.
Defined.

Lemma injected_fault_marks_existing_raw_event_failed_witness :
  findRawByHash (_generateRawHash exampleEvent)
    (snd (processEvent Host.Date_parse
            (mkStore [created emptyStore exampleEvent pending None] [])
            exampleEvent true))
  = Some (setFailed "Simulated database failure"
            (created emptyStore exampleEvent pending None)).
Proof.
  destruct (Normalizer.normalize Host.Date_parse (ev_source exampleEvent)
              (ev_payload exampleEvent)) as [n|error] eqn:E.
  - apply (injected_fault_marks_existing_raw_event_failed Host.Date_parse
             (mkStore [created emptyStore exampleEvent pending None] [])
             exampleEvent (created emptyStore exampleEvent pending None) n).
    + simpl. constructor; [intros []|constructor].
    + unfold findRawByHash. cbn [rawEvents find contentHash created].
      now rewrite String.eqb_refl.
    + intros r [<-|[]] _. discriminate.
    + exact E.
    + reflexivity.
  - vm_compute in E. discriminate.
Defined.

Lemma processEvent_keeps_references_resolved_witness :
  referencesResolve
    (snd (processEvent Host.Date_parse emptyStore exampleEvent false)).
Proof.
  apply (processEvent_keeps_references_resolved Host.Date_parse).
  intros e [].
Defined.

Lemma run_links_normalized_to_raw_witness :
  linked Host.Date_parse
    (EventProcessor.run Host.Date_parse emptyStore
       [(exampleEvent, true); (exampleEvent, false);
        (exampleEventRenamed, false); (invalidExample, false)]).
Proof.
  apply (run_links_normalized_to_raw Host.Date_parse
           [(exampleEvent, true); (exampleEvent, false);
            (exampleEventRenamed, false); (invalidExample, false)]).
  apply (collisionFree_within
           [exampleEvent; exampleEventRenamed; invalidExample]).
  - vm_compute. repeat constructor; simpl; intuition discriminate.
  - intros a Ha. simpl in Ha. simpl. intuition.
Defined.

Lemma getAggregates_ungrouped_witness :
  exists s,
    getAggregates
      (mkStore [] [eventOf 1 "A" 10 None None "h1" 1;
                   eventOf 2 "B" 5 None None "h2" 2])
      None None None None = [s]
    /\ group s = "all"
    /\ totals_count s = 2%nat.
Proof.
  destruct (getAggregates_ungrouped
              (mkStore [] [eventOf 1 "A" 10 None None "h1" 1;
                           eventOf 2 "B" 5 None None "h2" 2])
              None None None None) as (s & E & Hg & Hc & _).
  - discriminate.
  - exists s. split; [exact E|]. split; [exact Hg|exact Hc].
Defined.

Lemma getAggregates_client_filter_witness :
  (List.length
     (getAggregates
        (mkStore [] [eventOf 1 "A" 10 None None "h1" 1;
                     eventOf 2 "B" 5 None None "h2" 2])
        (Some "A") None None (Some "client")) <= 1)%nat.
Proof.
  apply (getAggregates_client_filter
           (mkStore [] [eventOf 1 "A" 10 None None "h1" 1;
                        eventOf 2 "B" 5 None None "h2" 2])
           "A" None None (Some "client")).
  discriminate.
Defined.
